(** * inventory_system.py: the inventory store and its JSON persistence

    A shallow embedding of [src/inventory_system.py].  The module-level
    dictionary [stock_data], the files it is saved to and loaded from, the
    records handed to the logger and the lines printed on standard output
    form one explicit [world]; every function of the module is a
    computation over that world which either returns or raises.

    - Arguments are dynamically typed Python values ([pyval]), so that the
      [isinstance] checks of the module are part of the model.
    - [stock_data] is a finite map from strings to integers: every write
      the module makes stores a [str] key and an [int] value.  The order in
      which a dict yields its items is not modelled.
    - Strings are byte strings; comparing them byte by byte is the order
      Python uses on the corresponding text.
    - [json.dump] and [json.load] belong to the standard library.  A file is
      modelled by what [open] and [json.load] make of it: a path that
      [open] refuses, bytes that are not UTF-8 text, text the decoder
      rejects, or a JSON document; [json.dump] leaves the document of the
      dict it is given.  The builtin [int] on a [str] is a parameter of the
      development.
    - [open(file, "w")] fails with [OSError] on the paths in [readonly]; a
      path that cannot be opened at all (a directory, a file without
      permissions) is expected to be one of them ([paths_closed], which
      every call keeps).
    - A path is the key of its file: the model does not relate two
      spellings of the path of one file. *)

From Stdlib Require Import ZArith Floats.SpecFloat.
From stdpp Require Import gmap strings list fin_maps sorting pretty.

Local Open Scope Z_scope.
Set Warnings "-register-all".

(** ** Python values *)

(** The values the functions can be called with and the values [json.load]
    can return.  A float is kept as its IEEE-754 decomposition; the only
    thing the program ever does with one is [int(v)]. *)
Inductive pyval :=
| PNone
| PBool (b : bool)
| PInt (n : Z)
| PFloat (f : spec_float)
| PStr (s : string)
| PList (xs : list pyval)
| PDict (items : list (pyval * pyval)).

(** [isinstance(v, str)] *)
Definition as_str (v : pyval) : option string :=
  match v with
  | PStr s => Some s
  | _ => None
  end.

(** [isinstance(v, int)]: [bool] is a subclass of [int], [True] is 1 and
    [False] is 0. *)
Definition as_int (v : pyval) : option Z :=
  match v with
  | PInt n => Some n
  | PBool b => Some (if b then 1 else 0)
  | _ => None
  end.

(** [not isinstance(item, str) or not item] is false exactly on a
    non-empty string. *)
Definition nonempty_str (v : pyval) : option string :=
  match as_str v with
  | Some s => if decide (s = "") then None else Some s
  | None => None
  end.

(** Outcome of the builtin [int(v)]. *)
Inductive int_outcome :=
| IntOk (n : Z)
| IntValueError
| IntTypeError
| IntOverflowError.

(** [int] of a float truncates toward zero. *)
Definition trunc_float (f : spec_float) : int_outcome :=
  match f with
  | S754_zero _ => IntOk 0
  | S754_infinity _ => IntOverflowError
  | S754_nan => IntValueError
  | S754_finite s m e =>
      let mag := if decide (0 <= e) then Z.pos m * 2 ^ e
                 else Z.pos m `div` 2 ^ (- e) in
      IntOk (if s then - mag else mag)
  end.

(** ** JSON documents and files *)

(** A JSON document as [json.load] sees it: numbers already split into
    integers and floats, object members in file order, duplicates kept. *)
Inductive json :=
| JNull
| JBool (b : bool)
| JInt (n : Z)
| JFloat (f : spec_float)
| JStr (s : string)
| JArr (xs : list json)
| JObj (members : list (string * json)).

(** An [OSError] other than [FileNotFoundError] that [open] can raise. *)
Inductive os_error := IsADirectoryError | PermissionError.

(** What [open(file)] followed by [json.load(fh)] finds at a path that
    exists: UTF-8 text that the decoder rejects with [JSONDecodeError], a
    document, bytes that are not UTF-8 text (reading them raises
    [UnicodeDecodeError] with the given message), or a path that [open]
    refuses. *)
Inductive content :=
| Malformed
| Document (j : json)
| Undecodable (msg : string)
| Unopenable (e : os_error).

(** [d[k] = v] on the item list of a dict: an existing key keeps its
    position and takes the new value, a new key goes last. *)
Fixpoint dict_set {V} (k : string) (v : V) (d : list (string * V)) : list (string * V) :=
  match d with
  | [] => [(k, v)]
  | (k', v') :: d' =>
      if decide (k = k') then (k, v) :: d' else (k', v') :: dict_set k v d'
  end.

(** The dict built from the members of a JSON object, read in order. *)
Definition dict_of_pairs {V} (ms : list (string * V)) : list (string * V) :=
  fold_left (λ d p, dict_set p.1 p.2 d) ms [].

(** [json.load]: the Python value of a document. *)
Fixpoint json_load (j : json) : pyval :=
  match j with
  | JNull => PNone
  | JBool b => PBool b
  | JInt n => PInt n
  | JFloat f => PFloat f
  | JStr s => PStr s
  | JArr xs => PList (map json_load xs)
  | JObj ms =>
      PDict (map (λ p, (PStr p.1, p.2))
               (dict_of_pairs (map (λ p, (fst p, json_load (snd p))) ms)))
  end.

(** [json.dump(stock_data, ...)]: one member per entry, the quantity as a
    JSON integer. *)
Definition json_dump (stock : gmap string Z) : json :=
  JObj (map (λ p, (p.1, JInt p.2)) (map_to_list stock)).

(** ** Logging, exceptions and the world *)

Inductive level := INFO | WARNING | ERROR.

(** The messages of the module, one constructor per format string, with the
    values that are interpolated.  [Added] is the log entry of [add_item]
    (without its timestamp prefix). *)
Inductive message :=
| Added (qty : pyval) (item : string) (previous now : Z)
| RemoveMissing (item : string)
| RemovedAll (item : string) (current : Z)
| Decreased (item : string) (qty new_qty : Z)
| SkipKey (k : pyval)
| SkipValue (k : string) (v : pyval)
| Loaded (file : string)
| NotAnObject (file : string)
| FileNotFound (file : string)
| DecodeFailed (file : string)
| Saved (file : string)
| SaveFailed (file : string).

Inductive exn :=
| ValueError (msg : string)
| OverflowError
| UnicodeDecodeError (msg : string)
| OSError (e : os_error).

Inductive result (A : Type) :=
| Returns (a : A)
| Raises (e : exn).
Arguments Returns {A} a.
Arguments Raises {A} e.

Record world := World {
  stock_data : gmap string Z;
  files : gmap string content;
  readonly : gset string;
  logger : list (level * message);
  stdout : list string
}.

(** Process start: the stock is the empty dict. *)
Definition boot (fs : gmap string content) (ro : gset string) : world :=
  World ∅ fs ro [] [].

(** ** Computations over the world *)

Definition M (A : Type) : Type := world → world * result A.

Definition ret {A} (a : A) : M A := λ w, (w, Returns a).

Definition raise {A} (e : exn) : M A := λ w, (w, Raises e).

Definition bind {A B} (m : M A) (k : A → M B) : M B :=
  λ w, match m w with
       | (w', Returns a) => k a w'
       | (w', Raises e) => (w', Raises e)
       end.

Declare Scope py_scope.
Delimit Scope py_scope with py.
Notation "x <- m ;; k" := (bind m (λ x, k))
  (at level 20, m at level 99, k at level 200, only parsing) : py_scope.
Notation "m ;; k" := (bind m (λ _, k))
  (at level 100, k at level 200, right associativity, only parsing) : py_scope.
Local Open Scope py_scope.

Definition get_stock : M (gmap string Z) := λ w, (w, Returns (stock_data w)).

Definition put_stock (s : gmap string Z) : M unit :=
  λ w, (World s (files w) (readonly w) (logger w) (stdout w), Returns tt).

Definition log (l : level) (m : message) : M unit :=
  λ w, (World (stock_data w) (files w) (readonly w) (logger w ++ [(l, m)]) (stdout w),
        Returns tt).

Definition print (line : string) : M unit :=
  λ w, (World (stock_data w) (files w) (readonly w) (logger w) (stdout w ++ [line]),
        Returns tt).

(** [open(file, "w")] succeeded: the file now holds what was dumped. *)
Definition write_file (file : string) (c : content) : M unit :=
  λ w, (World (stock_data w) (<[file := c]> (files w)) (readonly w) (logger w) (stdout w),
        Returns tt).

(** [for x in xs: body(x)] *)
Fixpoint for_each {A} (xs : list A) (body : A → M unit) : M unit :=
  match xs with
  | [] => ret tt
  | x :: xs => body x ;; for_each xs body
  end.

(** ** Sorting the items *)

(** The order [sorted] uses on [(name, qty)] tuples: by name, character by
    character; on equal names, by quantity. *)
Definition item_le (p q : string * Z) : Prop :=
  if decide (p.1 = q.1) then p.2 ≤ q.2 else String.le p.1 q.1.

Global Instance item_le_dec : RelDecision item_le.
Proof. intros p q. unfold item_le. destruct (decide (p.1 = q.1)); apply _. Defined.

(** [sorted(items)] *)
Definition sorted (items : list (string * Z)) : list (string * Z) :=
  merge_sort item_le items.

(** ** The functions of the module *)

Section Inventory.

(** The builtin [int] applied to a [str]: [Some n] when the text is an
    integer literal, [None] when it raises [ValueError]. *)
Variable int_of_str : string → option Z.

(** [int(v)] *)
Definition py_int (v : pyval) : int_outcome :=
  match v with
  | PInt n => IntOk n
  | PBool b => IntOk (if b then 1 else 0)
  | PFloat f => trunc_float f
  | PStr s => match int_of_str s with
              | Some n => IntOk n
              | None => IntValueError
              end
  | PNone | PList _ | PDict _ => IntTypeError
  end.

Definition add_item (item qty : pyval) (logs : option (list message))
  : M (list message) :=
  let logs := default [] logs in
  match nonempty_str item with
  | None => raise (ValueError "item must be a non-empty string")
  | Some item =>
  match as_int qty with
  | None => raise (ValueError "qty must be an integer")
  | Some q =>
  if decide (q < 0) then raise (ValueError "qty must be non-negative") else
  stock <- get_stock ;;
  let previous := default 0 (stock !! item) in
  put_stock (<[item := previous + q]> stock) ;;
  let entry := Added qty item previous (previous + q) in
  log INFO entry ;;
  ret (logs ++ [entry])
  end end.

Definition remove_item (item qty : pyval) : M unit :=
  match nonempty_str item with
  | None => raise (ValueError "item must be a non-empty string")
  | Some item =>
  match as_int qty with
  | None => raise (ValueError "qty must be a positive integer")
  | Some q =>
  if decide (q <= 0) then raise (ValueError "qty must be a positive integer") else
  stock <- get_stock ;;
  match stock !! item with
  | None =>
      log WARNING (RemoveMissing item) ;;
      raise (ValueError ("Item '" +:+ item +:+ "' not found"))
  | Some current =>
      if decide (q >= current) then
        put_stock (delete item stock) ;;
        log INFO (RemovedAll item current)
      else
        put_stock (<[item := current - q]> stock) ;;
        log INFO (Decreased item q (current - q))
  end end end.

Definition get_qty (item : pyval) : M Z :=
  match nonempty_str item with
  | None => raise (ValueError "item must be a non-empty string")
  | Some item =>
      stock <- get_stock ;;
      ret (default 0 (stock !! item))
  end.

(** The loop of [load_data] over [data.items()]. *)
Fixpoint validate (items : list (pyval * pyval)) (validated : gmap string Z)
  : M (gmap string Z) :=
  match items with
  | [] => ret validated
  | (k, v) :: items =>
      match as_str k with
      | None => log WARNING (SkipKey k) ;; validate items validated
      | Some key =>
          match py_int v with
          | IntOk n => validate items (<[key := n]> validated)
          | IntValueError | IntTypeError =>
              log WARNING (SkipValue key v) ;; validate items validated
          | IntOverflowError => raise OverflowError
          end
      end
  end.

Definition load_data (file : string) : M unit :=
  λ w,
  match files w !! file with
  | None => log INFO (FileNotFound file) w
  | Some Malformed => log ERROR (DecodeFailed file) w
  | Some (Undecodable msg) => raise (UnicodeDecodeError msg) w
  | Some (Unopenable e) => raise (OSError e) w
  | Some (Document j) =>
      match json_load j with
      | PDict items =>
          (validated <- validate items ∅ ;;
           put_stock (validated ∪ ∅) ;;
           log INFO (Loaded file)) w
      | _ => log ERROR (NotAnObject file) w
      end
  end.

Definition save_data (file : string) : M unit :=
  λ w,
  if decide (file ∈ readonly w) then log ERROR (SaveFailed file) w
  else
    (stock <- get_stock ;;
     write_file file (Document (json_dump stock)) ;;
     log INFO (Saved file)) w.

(** [f"{name} -> {qty}"] *)
Definition report_line (p : string * Z) : string :=
  p.1 +:+ " -> " +:+ pretty p.2.

Definition print_data : M unit :=
  print "Items Report" ;;
  stock <- get_stock ;;
  if decide (stock = ∅) then print "(no items)"
  else for_each (sorted (map_to_list stock)) (λ p, print (report_line p)).

Definition check_low_items (threshold : pyval) : M (list string) :=
  match as_int threshold with
  | None => raise (ValueError "threshold must be a non-negative integer")
  | Some t =>
  if decide (t < 0) then raise (ValueError "threshold must be a non-negative integer") else
  stock <- get_stock ;;
  ret (map fst (filter (λ p, p.2 < t) (map_to_list stock)))
  end.

(** A document that [load_data] can read without bringing a negative
    quantity in: whatever integer a member of the object converts to is ≥ 0. *)
Definition harmless (c : content) : Prop :=
  match c with
  | Document (JObj ms) =>
      ∀ k j n, (k, j) ∈ ms → py_int (json_load j) = IntOk n → 0 ≤ n
  | _ => True
  end.

(** ** Sequences of calls *)

Inductive op :=
| Add (item qty : pyval) (logs : option (list message))
| Remove (item qty : pyval)
| GetQty (item : pyval)
| Load (file : string)
| Save (file : string)
| LowItems (threshold : pyval)
| Report.

(** One call made by a client that catches whatever the call raises: only
    the world it leaves behind matters for the next call. *)
Definition step (w : world) (o : op) : world :=
  match o with
  | Add item qty logs => (add_item item qty logs w).1
  | Remove item qty => (remove_item item qty w).1
  | GetQty item => (get_qty item w).1
  | Load file => (load_data file w).1
  | Save file => (save_data file w).1
  | LowItems threshold => (check_low_items threshold w).1
  | Report => (print_data w).1
  end.

Definition run (ops : list op) (w : world) : world := fold_left step ops w.

End Inventory.

(** The invariant of the data model: no entry has a negative quantity. *)
Definition non_negative (stock : gmap string Z) : Prop :=
  ∀ item qty, stock !! item = Some qty → 0 ≤ qty.

(** What a client sees of a call: the stock it leaves and how it ended. *)
Definition outcome {A} (r : world * result A) : gmap string Z * result A :=
  (stock_data r.1, r.2).

(** The three ways [add_item] rejects its arguments. *)
Definition validation_messages : list string :=
  ["item must be a non-empty string"; "qty must be an integer";
   "qty must be non-negative"].

(** The stock after a run of [add_item(name, q)] calls, one per quantity. *)
Definition add_each (name : string) (qtys : list Z) (w : world) : world :=
  fold_left (λ w q, (add_item (PStr name) (PInt q) None w).1) qtys w.

Definition sum_list (qtys : list Z) : Z := foldr Z.add 0 qtys.

(** The stock of the spec's example. *)
Definition example_stock : gmap string Z :=
  <["apple" := 10]> (<["banana" := 2]> (<["pear" := 5]> ∅)).

(** Names in increasing order, character by character. *)
Definition name_le (p q : string * Z) : Prop := String.le p.1 q.1.
Definition name_lt (p q : string * Z) : Prop := strict String.le p.1 q.1.

(** What [print_data] adds to standard output for a given stock. *)
Definition report_lines (stock : gmap string Z) : list string :=
  "Items Report" ::
  (if decide (stock = ∅) then ["(no items)"]
   else map report_line (sorted (map_to_list stock))).

(** A file holding the JSON object [{"apple": -5}]. *)
Definition negative_file : gmap string content :=
  {["inventory.json" := Document (JObj [("apple", JInt (-5))])]}.

(** A world to try the functions on: the example stock, one file the
    decoder rejects, one holding a JSON array, and no text that [int]
    accepts. *)
Definition example_world : world :=
  World example_stock
        (<["broken.json" := Malformed]> {["list.json" := Document (JArr [JInt 1])]})
        ∅ [] [].

Definition no_literal : string → option Z := λ _, None.



(** The member that [json.load] keeps for a name when it builds the dict of
    a JSON object: the last one with that name. *)
Fixpoint last_member {V} (k : string) (ms : list (string * V)) : option V :=
  match ms with
  | [] => None
  | (k', v) :: ms =>
      match last_member k ms with
      | Some v' => Some v'
      | None => if decide (k = k') then Some v else None
      end
  end.

(** The quantity [load_data] stores for a value of the dict, if it stores
    one: [int(v)] when that returns. *)
Definition converted (int_of_str : string → option Z) (v : pyval) : option Z :=
  match py_int int_of_str v with
  | IntOk n => Some n
  | _ => None
  end.

(** The quantity [load_data] stores for a member of the object. *)
Definition loaded (int_of_str : string → option Z) (j : json) : option Z :=
  converted int_of_str (json_load j).

(** Objects to try [load_data] on: one with a repeated name and a member
    that is not a number, one with a float, a [null] and a string, and one
    with an infinite float. *)
Definition repeated_members : list (string * json) :=
  [("apple", JInt 3); ("pear", JInt 4); ("apple", JNull)].

Definition mixed_members : list (string * json) :=
  [("apple", JInt 3); ("kiwi", JFloat (S754_finite false 5 (-1)));
   ("pear", JNull); ("fig", JStr "many")].

Definition infinite_members : list (string * json) :=
  [("apple", JInt 3); ("pear", JFloat (S754_infinity false))].

(** The example stock with one file, ["inventory.json"], holding an object. *)
Definition world_with (ms : list (string * json)) : world :=
  World example_stock {["inventory.json" := Document (JObj ms)]} ∅ [] [].

(** ** The demo [main] *)

(** The warnings [main] itself hands to the logger, one constructor per
    format string, with the text of the exception.  They are collected in a
    list that the model of [main] returns; the records of the functions it
    calls go to the [logger] of the world as before. *)
Inductive main_warning :=
| IgnoredAdd (exc : string)
| RemoveError (exc : string)
| GetQtyError (exc : string).

(** [str(exc)] when [exc] is a [ValueError]: the class itself or its
    subclass [UnicodeDecodeError]. *)
Definition value_error_text (e : exn) : option string :=
  match e with
  | ValueError msg | UnicodeDecodeError msg => Some msg
  | OverflowError | OSError _ => None
  end.

(** [try: body  except ValueError as exc: handler(str(exc))]; any other
    exception goes through. *)
Definition try_except {A} (body : M A) (handler : string → M A) : M A :=
  λ w, match body w with
       | (w', Raises e) =>
           match value_error_text e with
           | Some msg => handler msg w'
           | None => (w', Raises e)
           end
       | r => r
       end.

Section Script.

Variable int_of_str : string → option Z.

(** The builtin [repr] of a list of [str], which [print] shows for the
    result of [check_low_items]. *)
Variable repr_names : list string → string.

Definition main : M (list main_warning) :=
  let logs := [] in
  logs <- add_item (PStr "apple") (PInt 10) (Some logs) ;;
  r1 <- try_except
          (logs' <- add_item (PStr "banana") (PInt (-2)) (Some logs) ;; ret (logs', []))
          (λ exc, ret (logs, [IgnoredAdd exc])) ;;
  r2 <- try_except
          (logs' <- add_item (PStr "123") (PInt 10) (Some r1.1) ;; ret (logs', []))
          (λ exc, ret (r1.1, [IgnoredAdd exc])) ;;
  w3 <- try_except
          (remove_item (PStr "apple") (PInt 3) ;; ret [])
          (λ exc, ret [RemoveError exc]) ;;
  try_except (remove_item (PStr "orange") (PInt 1)) (λ _, ret tt) ;;
  w5 <- try_except
          (n <- get_qty (PStr "apple") ;;
           print ("Apple stock: " +:+ pretty n) ;; ret [])
          (λ exc, ret [GetQtyError exc]) ;;
  names <- check_low_items (PInt 5) ;;
  print ("Low items: " +:+ repr_names names) ;;
  save_data "inventory.json" ;;
  load_data int_of_str "inventory.json" ;;
  print_data ;;
  ret (r1.2 ++ r2.2 ++ w3 ++ w5).

End Script.

(** The stock [main] builds from the empty one, the records the logger has
    received when [main] reaches [save_data], and what it has printed by
    then. *)
Definition main_stock : gmap string Z := <["123" := 10]> (<["apple" := 7]> ∅).

Definition main_records : list (level * message) :=
  [(INFO, Added (PInt 10) "apple" 0 10);
   (INFO, Added (PInt 10) "123" 0 10);
   (INFO, Decreased "apple" 3 7);
   (WARNING, RemoveMissing "orange")].

Definition main_printed (repr_names : list string → string) : list string :=
  ["Apple stock: 7"; "Low items: " +:+ repr_names []].

(** [repr] of a list of names that need no escaping. *)
Definition repr_plain (names : list string) : string :=
  "[" +:+ String.concat ", " (map (λ name, "'" +:+ name +:+ "'") names) +:+ "]".

(** The file system the model is meant for: a path that [open] refuses for
    reading is refused for writing as well. *)
Definition paths_closed (w : world) : Prop :=
  ∀ file e, files w !! file = Some (Unopenable e) → file ∈ readonly w.

(** The data model of the stock: names are non-empty and no quantity is
    negative. *)
Definition sound_stock (stock : gmap string Z) : Prop :=
  ∀ item qty, stock !! item = Some qty → item ≠ "" ∧ 0 ≤ qty.

(** A file that [load_data] can read without breaking the data model:
    every member of the object that converts to an integer has a non-empty
    name and converts to an integer ≥ 0. *)
Definition sound_file (int_of_str : string → option Z) (c : content) : Prop :=
  match c with
  | Document (JObj ms) =>
      ∀ k j n, (k, j) ∈ ms → py_int int_of_str (json_load j) = IntOk n →
               k ≠ "" ∧ 0 ≤ n
  | _ => True
  end.

(** * Properties *)

Ltac unfold_m :=
  unfold bind, ret, raise, get_stock, put_stock, log, print, write_file in *;
  simpl in *.

(** ** Argument checks *)

Lemma nonempty_str_Some item name :
  nonempty_str item = Some name ↔ item = PStr name ∧ name ≠ "".
Proof.
  unfold nonempty_str. destruct item; simpl; try (split; [done | by intros [? _]]).
  destruct (decide (s = "")) as [->|Hne]; split.
  - done.
  - intros [[= <-] Hne]. done.
  - intros [= <-]. done.
  - intros [[= <-] _]. done.
Qed.

Lemma nonempty_str_PStr name : name ≠ "" → nonempty_str (PStr name) = Some name.
Proof. intros. by apply nonempty_str_Some. Qed.

(** ** [add_item] *)

Lemma add_item_valid name qty q logs w :
  name ≠ "" → as_int qty = Some q → 0 ≤ q →
  let previous := default 0 (stock_data w !! name) in
  let entry := Added qty name previous (previous + q) in
  add_item (PStr name) qty logs w =
    (World (<[name := previous + q]> (stock_data w)) (files w) (readonly w)
           (logger w ++ [(INFO, entry)]) (stdout w),
     Returns (default [] logs ++ [entry])).
Proof.
  intros Hne Hq Hpos. unfold add_item.
  rewrite nonempty_str_PStr by done. rewrite Hq.
  destruct (decide (q < 0)); [lia|]. by unfold_m.
Qed.

(** C6.  A call of [add_item] with an empty or non-string item, a qty that
    is not an [int], or a negative qty raises [ValueError] with one of the
    validation messages, and leaves the stock (indeed the whole world) as
    it was. *)
Theorem add_item_invalid (item qty : pyval) (logs : option (list message)) (w : world) :
  nonempty_str item = None ∨ as_int qty = None ∨ (∃ q, as_int qty = Some q ∧ q < 0) →
  ∃ msg, msg ∈ validation_messages ∧
         add_item item qty logs w = (w, Raises (ValueError msg)).
Proof.
  intros H. unfold add_item, validation_messages.
  destruct (nonempty_str item) as [name|] eqn:Hitem.
  - destruct H as [H | [H | (q & Hq & Hneg)]]; [done | |].
    + rewrite H. eexists. split; [|done]. repeat constructor.
    + rewrite Hq. destruct (decide (q < 0)); [|lia].
      eexists. split; [|done]. repeat constructor.
  - eexists. split; [|done]. repeat constructor.
Qed.

(** ** [get_qty] *)

Lemma get_qty_valid name w :
  name ≠ "" → get_qty (PStr name) w = (w, Returns (default 0 (stock_data w !! name))).
Proof. intros. unfold get_qty. by rewrite nonempty_str_PStr. Qed.

Lemma add_each_lookup name qtys w :
  name ≠ "" → Forall (λ q, 0 ≤ q) qtys →
  stock_data (add_each name qtys w) !! name
  = if decide (qtys = []) then stock_data w !! name
    else Some (default 0 (stock_data w !! name) + sum_list qtys).
Proof.
  intros Hne Hall. revert w. induction Hall as [|q qtys Hq _ IH]; intros w; [done|].
  unfold add_each in *. simpl fold_left.
  rewrite (add_item_valid name (PInt q) q) by done. simpl.
  rewrite IH. simpl. rewrite lookup_insert_eq. simpl.
  destruct (decide (qtys = [])) as [->|]; simpl; f_equal; lia.
Qed.

(** C3.  After any sequence of valid adds of quantities [qtys] (each an
    integer ≥ 0) to a non-empty string item, [get_qty] returns the quantity
    it returned before plus the sum of the quantities; [get_qty] returns 0
    for an absent item, and raises the validation [ValueError] for an empty
    or non-string item, leaving the world as it was. *)
Theorem get_qty_after_adds (name : string) (qtys : list Z) (w : world) :
  name ≠ "" → Forall (λ q, 0 ≤ q) qtys →
  (∀ initial, (get_qty (PStr name) w).2 = Returns initial →
     (get_qty (PStr name) (add_each name qtys w)).2 = Returns (initial + sum_list qtys))
  ∧ (stock_data w !! name = None → get_qty (PStr name) w = (w, Returns 0))
  ∧ (∀ item, nonempty_str item = None →
       get_qty item w = (w, Raises (ValueError "item must be a non-empty string"))).
Proof.
  intros Hne Hall. split; [|split].
  - intros initial. rewrite !get_qty_valid by done. simpl. intros [= <-].
    rewrite add_each_lookup by done.
    destruct (decide (qtys = [])) as [->|]; simpl; f_equal; lia.
  - intros Habs. rewrite get_qty_valid by done. by rewrite Habs.
  - intros item Hitem. unfold get_qty. by rewrite Hitem.
Qed.

(** ** [remove_item] *)

(** C4.  For an item present with quantity [current] and a valid integer
    qty > 0: when qty ≥ current the entry is deleted and [get_qty]
    afterwards returns 0; otherwise the entry is decremented by qty.  In
    both cases the call returns. *)
Theorem remove_item_present (name : string) (qty : pyval) (q current : Z) (w : world) :
  name ≠ "" → as_int qty = Some q → 0 < q →
  stock_data w !! name = Some current →
  (current ≤ q →
     outcome (remove_item (PStr name) qty w) = (delete name (stock_data w), Returns tt)
     ∧ (get_qty (PStr name) (remove_item (PStr name) qty w).1).2 = Returns 0)
  ∧ (q < current →
     outcome (remove_item (PStr name) qty w)
     = (<[name := current - q]> (stock_data w), Returns tt)).
Proof.
  intros Hne Hq Hpos Hcur. unfold remove_item, outcome.
  rewrite nonempty_str_PStr by done. rewrite Hq.
  destruct (decide (q <= 0)); [lia|]. unfold_m. rewrite Hcur.
  split; intros Hcmp; destruct (decide (q >= current)); try lia.
  - split; [done|]. simpl. rewrite get_qty_valid by done. simpl.
    by rewrite lookup_delete_eq.
  - done.
Qed.

(** C5.  Removing a valid qty of an item that is absent raises the
    not-found [ValueError] and leaves the stock unchanged. *)
Theorem remove_item_absent (name : string) (qty : pyval) (q : Z) (w : world) :
  name ≠ "" → as_int qty = Some q → 0 < q →
  stock_data w !! name = None →
  outcome (remove_item (PStr name) qty w)
  = (stock_data w, Raises (ValueError ("Item '" +:+ name +:+ "' not found"))).
Proof.
  intros Hne Hq Hpos Habs. unfold remove_item, outcome.
  rewrite nonempty_str_PStr by done. rewrite Hq.
  destruct (decide (q <= 0)); [lia|]. unfold_m. by rewrite Habs.
Qed.

(** ** [check_low_items] *)

Lemma low_items_spec (stock : gmap string Z) (t : Z) :
  let names := map fst (filter (λ p, p.2 < t) (map_to_list stock)) in
  NoDup names ∧ ∀ name, name ∈ names ↔ ∃ q, stock !! name = Some q ∧ q < t.
Proof.
  simpl. split.
  - pose proof (NoDup_fst_map_to_list stock) as Hnd.
    revert Hnd. generalize (map_to_list stock). intros l.
    induction l as [|[k v] l IH]; simpl; [constructor|].
    intros Hnd. apply NoDup_cons in Hnd as [Hk Hnd].
    rewrite filter_cons. case_decide; simpl; [|by apply IH].
    apply NoDup_cons. split; [|by apply IH].
    intros Hin. apply Hk. apply list_elem_of_fmap in Hin as ([k' v'] & -> & Hin).
    apply list_elem_of_filter in Hin as [_ Hin].
    apply list_elem_of_fmap. by exists (k', v').
  - intros name. rewrite list_elem_of_fmap. split.
    + intros ([k q] & -> & Hin). apply list_elem_of_filter in Hin as [Hlt Hin].
      apply elem_of_map_to_list in Hin. by exists q.
    + intros (q & Hq & Hlt). exists (name, q). split; [done|].
      apply list_elem_of_filter. split; [done|]. by apply elem_of_map_to_list.
Qed.

Lemma check_low_items_valid (t : Z) (threshold : pyval) (w : world) :
  as_int threshold = Some t → 0 ≤ t →
  check_low_items threshold w
  = (w, Returns (map fst (filter (λ p, p.2 < t) (map_to_list (stock_data w))))).
Proof.
  intros Ht Hpos. unfold check_low_items. rewrite Ht.
  destruct (decide (t < 0)); [lia|]. by unfold_m.
Qed.

(** C8.  For an integer threshold ≥ 0, [check_low_items] returns, without
    repetition, exactly the names whose quantity is strictly below the
    threshold; it raises the validation [ValueError] for a threshold that is
    not an [int] or is negative; and on the stock
    [{"apple": 10, "banana": 2, "pear": 5}] the call [check_low_items(5)]
    returns exactly [["banana"]].  The world is never changed. *)
Theorem check_low_items_spec (threshold : pyval) (w : world) :
  (∀ t, as_int threshold = Some t → 0 ≤ t →
     ∃ names, check_low_items threshold w = (w, Returns names)
       ∧ NoDup names
       ∧ ∀ name, name ∈ names ↔ ∃ q, stock_data w !! name = Some q ∧ q < t)
  ∧ (as_int threshold = None ∨ (∃ t, as_int threshold = Some t ∧ t < 0) →
     check_low_items threshold w
     = (w, Raises (ValueError "threshold must be a non-negative integer")))
  ∧ (stock_data w = example_stock →
     check_low_items (PInt 5) w = (w, Returns ["banana"])).
Proof.
  split; [|split].
  - intros t Ht Hpos. rewrite (check_low_items_valid t) by done.
    eexists. split; [done|]. apply low_items_spec.
  - unfold check_low_items. intros [-> | (t & -> & Hneg)]; [done|].
    by destruct (decide (t < 0)); [|lia].
  - intros Hstock. rewrite (check_low_items_valid 5) by done.
    rewrite Hstock. reflexivity.
Qed.

(** ** [load_data] on files it cannot use *)


(** ** [print_data] *)

Global Instance item_le_total : Total item_le.
Proof.
  intros p q. unfold item_le.
  destruct (decide (p.1 = q.1)) as [Heq|Hne].
  - rewrite decide_True by done. lia.
  - rewrite decide_False by done. apply (total String.le).
Qed.

Global Instance item_le_trans : Transitive item_le.
Proof.
  intros p q r. unfold item_le.
  destruct (decide (p.1 = q.1)) as [Hpq|Hpq], (decide (q.1 = r.1)) as [Hqr|Hqr].
  - rewrite decide_True by congruence. lia.
  - rewrite decide_False by congruence. by rewrite Hpq.
  - rewrite decide_False by congruence. by rewrite Hqr.
  - intros H1 H2. case_decide as Hpr.
    + rewrite <- Hpr in H2. destruct Hpq. by apply (anti_symm String.le).
    + by etrans.
Qed.

Lemma item_le_name_le p q : item_le p q → name_le p q.
Proof. unfold item_le, name_le. case_decide as H; [by rewrite H|done]. Qed.

Lemma StronglySorted_weaken {A} (R1 R2 : relation A) l :
  (∀ x y, x ∈ l → y ∈ l → R1 x y → R2 x y) →
  StronglySorted R1 l → StronglySorted R2 l.
Proof.
  intros Himp Hs. induction Hs as [|x l Hs IH Hall]; constructor.
  - apply IH. intros y z Hy Hz. apply Himp; by constructor.
  - apply Forall_forall. intros y Hy. apply Himp; [by constructor..|].
    by eapply Forall_forall in Hall.
Qed.

Lemma same_name_same_item (l : list (string * Z)) p q :
  NoDup l.*1 → p ∈ l → q ∈ l → p.1 = q.1 → p = q.
Proof.
  induction l as [|x l IH]; simpl; [by intros _ ?%elem_of_nil|].
  intros [Hx Hnd]%NoDup_cons [->|Hp]%elem_of_cons [->|Hq]%elem_of_cons Heq; try done.
  - destruct Hx. rewrite Heq. by apply list_elem_of_fmap_2.
  - destruct Hx. rewrite <- Heq. by apply list_elem_of_fmap_2.
  - by apply IH.
Qed.

Lemma name_le_strict (l : list (string * Z)) :
  NoDup l.*1 → StronglySorted name_le l → StronglySorted name_lt l.
Proof.
  intros Hnd Hs. induction Hs as [|x l Hs IH Hall]; constructor.
  - apply IH. by apply NoDup_cons in Hnd as [_ ?].
  - apply NoDup_cons in Hnd as [Hx _].
    apply Forall_forall. intros y Hy. split.
    + by eapply Forall_forall in Hall.
    + intros Hyx. destruct Hx.
      assert (x.1 = y.1) as ->.
      { apply (anti_symm String.le); [|done]. by eapply Forall_forall in Hall. }
      by apply list_elem_of_fmap_2.
Qed.

Lemma sorted_Permutation (l : list (string * Z)) : sorted l ≡ₚ l.
Proof. apply merge_sort_Permutation. Qed.

Lemma sorted_names (l : list (string * Z)) :
  NoDup l.*1 → StronglySorted name_lt (sorted l).
Proof.
  intros Hnd. apply name_le_strict.
  - by rewrite sorted_Permutation.
  - eapply StronglySorted_weaken; [|apply (StronglySorted_merge_sort item_le)].
    intros p q _ _. apply item_le_name_le.
Qed.

Global Instance name_le_trans : Transitive name_le.
Proof. intros p q r. unfold name_le. apply transitivity. Qed.

(** A listing of given entries in name order is unique. *)
Lemma sorted_unique (l l' : list (string * Z)) :
  NoDup l.*1 → l' ≡ₚ l → Sorted name_le l' → l' = sorted l.
Proof.
  intros Hnd Hperm Hs.
  apply (StronglySorted_unique_strong name_le).
  - intros p q Hp Hq Hpq Hqp.
    apply (same_name_same_item l); [done|by rewrite <- Hperm|..].
    + by rewrite <- (sorted_Permutation l).
    + by apply (anti_symm String.le).
  - by apply (Sorted_StronglySorted name_le).
  - eapply StronglySorted_weaken; [|apply (StronglySorted_merge_sort item_le)].
    intros p q _ _. apply item_le_name_le.
  - by rewrite sorted_Permutation.
Qed.

Lemma for_each_print {A} (f : A → string) (xs : list A) (w : world) :
  for_each xs (λ x, print (f x)) w
  = (World (stock_data w) (files w) (readonly w) (logger w) (stdout w ++ map f xs),
     Returns tt).
Proof.
  revert w. induction xs as [|x xs IH]; intros w; simpl.
  - unfold ret. rewrite app_nil_r. by destruct w.
  - unfold bind, print at 1. rewrite IH. simpl. by rewrite <- app_assoc.
Qed.

Lemma print_data_eq (w : world) :
  print_data w
  = (World (stock_data w) (files w) (readonly w) (logger w)
           (stdout w ++ report_lines (stock_data w)), Returns tt).
Proof.
  unfold print_data, report_lines, bind, print at 1, get_stock. simpl.
  destruct (decide (stock_data w = ∅)) as [Hemp|Hne].
  - unfold print. simpl. by rewrite <- app_assoc.
  - rewrite for_each_print. simpl. by rewrite <- app_assoc.
Qed.

(** C9.  [print_data] returns normally and changes nothing but standard
    output, to which it appends the header line and then either the single
    line ["(no items)"], when the stock is empty, or one line per entry of
    the stock, each entry exactly once, in strictly increasing order of
    name; the line of an entry is its name, the text [" -> "] and its
    quantity in decimal.  The listing is a function of the mapping alone:
    any arrangement of the entries in name order is the one printed. *)
Theorem print_data_report (w : world) :
  ∃ body,
    print_data w
    = (World (stock_data w) (files w) (readonly w) (logger w)
             (stdout w ++ "Items Report" :: body), Returns tt)
    ∧ (stock_data w = ∅ → body = ["(no items)"])
    ∧ (stock_data w ≠ ∅ →
       ∃ items, body = map (λ p, p.1 +:+ " -> " +:+ pretty p.2) items
         ∧ items ≡ₚ map_to_list (stock_data w)
         ∧ StronglySorted name_lt items
         ∧ ∀ items', items' ≡ₚ map_to_list (stock_data w) →
                     Sorted name_le items' → items' = items).
Proof.
  rewrite print_data_eq. unfold report_lines.
  eexists. split; [done|].
  destruct (decide (stock_data w = ∅)) as [Hemp|Hne]; split; try done.
  intros _. exists (sorted (map_to_list (stock_data w))).
  split; [done|]. split; [apply sorted_Permutation|]. split.
  - apply sorted_names, NoDup_fst_map_to_list.
  - intros items'. apply sorted_unique, NoDup_fst_map_to_list.
Qed.

(** ** Entries of quantity zero *)

(** C10.  Adding quantity 0 of a non-empty string item that is absent
    returns normally and leaves an entry with quantity 0 in the stock;
    [print_data] then prints its line and [check_low_items] returns its name
    for every threshold ≥ 1. *)
Theorem add_zero_retained (name : string) (logs : option (list message)) (w : world) :
  name ≠ "" → stock_data w !! name = None →
  let r := add_item (PStr name) (PInt 0) logs w in
  (∃ logs', r.2 = Returns logs')
  ∧ stock_data r.1 = <[name := 0]> (stock_data w)
  ∧ (∃ before after,
       stdout (print_data r.1).1
       = stdout r.1 ++ "Items Report" :: before ++ [name +:+ " -> 0"] ++ after)
  ∧ (∀ t, 1 ≤ t →
       ∃ names, check_low_items (PInt t) r.1 = (r.1, Returns names) ∧ name ∈ names).
Proof.
  intros Hne Habs. simpl.
  rewrite (add_item_valid name (PInt 0) 0) by done. simpl.
  rewrite Habs. simpl. change (0 + 0) with 0.
  split; [by eexists|]. split; [done|]. split.
  - rewrite print_data_eq. simpl. unfold report_lines.
    rewrite decide_False by apply insert_non_empty.
    assert ((name, 0) ∈ sorted (map_to_list (<[name:=0]> (stock_data w)))) as Hin.
    { rewrite sorted_Permutation. apply elem_of_map_to_list, lookup_insert_eq. }
    apply list_elem_of_split in Hin as (l1 & l2 & ->).
    exists (map report_line l1), (map report_line l2).
    by rewrite map_app.
  - intros t Ht. rewrite (check_low_items_valid t) by (done || lia).
    eexists. split; [done|]. apply low_items_spec. exists 0. simpl.
    rewrite lookup_insert_eq. split; [done|lia].
Qed.

(** ** Saving and loading back *)

Lemma dict_set_fresh {V} (k : string) (v : V) (d : list (string * V)) :
  k ∉ d.*1 → dict_set k v d = d ++ [(k, v)].
Proof.
  induction d as [|[k' v'] d IH]; simpl; [done|].
  intros Hk. apply not_elem_of_cons in Hk as [Hne Hk].
  rewrite decide_False by done. by rewrite IH.
Qed.

Lemma fold_dict_set_fresh {V} (ms d : list (string * V)) :
  NoDup (d ++ ms).*1 → fold_left (λ d p, dict_set p.1 p.2 d) ms d = d ++ ms.
Proof.
  revert d. induction ms as [|[k v] ms IH]; intros d Hnd; simpl.
  - by rewrite app_nil_r.
  - assert (k ∉ d.*1) as Hk.
    { rewrite fmap_app in Hnd. apply NoDup_app in Hnd as (_ & Hdisj & _).
      intros Hk. apply (Hdisj k Hk). by left. }
    rewrite dict_set_fresh by done.
    rewrite IH; by rewrite <- app_assoc.
Qed.

Lemma dict_of_pairs_nodup {V} (ms : list (string * V)) :
  NoDup ms.*1 → dict_of_pairs ms = ms.
Proof. intros Hnd. unfold dict_of_pairs. by rewrite fold_dict_set_fresh. Qed.

(** What [json.load] returns on a file written by [json.dump]: a dict with
    one string key per entry and the quantity as an [int]. *)
Lemma json_load_dump (stock : gmap string Z) :
  json_load (json_dump stock)
  = PDict (map (λ p, (PStr p.1, PInt p.2)) (map_to_list stock)).
Proof.
  unfold json_dump. simpl. f_equal.
  rewrite map_map. simpl. rewrite dict_of_pairs_nodup.
  - by rewrite map_map.
  - rewrite <- list_fmap_compose.
    apply (NoDup_fst_map_to_list stock).
Qed.

Lemma fold_insert_list_to_map (l : list (string * Z)) (acc : gmap string Z) :
  fold_left (λ m p, <[p.1 := p.2]> m) l acc = list_to_map (reverse l) ∪ acc.
Proof.
  revert acc. induction l as [|[k v] l IH]; intros acc; simpl.
  - by rewrite (left_id ∅ (∪)).
  - rewrite IH, reverse_cons, list_to_map_app. simpl.
    rewrite <- (assoc (∪)). f_equal.
    by rewrite insert_empty, <- insert_union_singleton_l.
Qed.

Lemma fold_insert_map_to_list (stock : gmap string Z) :
  fold_left (λ m p, <[p.1 := p.2]> m) (map_to_list stock) ∅ = stock.
Proof.
  rewrite fold_insert_list_to_map, (right_id ∅ (∪)).
  rewrite <- (list_to_map_to_list stock) at 2.
  apply list_to_map_proper.
  - rewrite reverse_Permutation. apply NoDup_fst_map_to_list.
  - apply reverse_Permutation.
Qed.

Section Persistence.

Variable int_of_str : string → option Z.

(** On items that are all (string, int) pairs the loop of [load_data] skips
    nothing, logs nothing and stores every pair. *)
Lemma validate_ints (l : list (string * Z)) (acc : gmap string Z) (w : world) :
  validate int_of_str (map (λ p, (PStr p.1, PInt p.2)) l) acc w
  = (w, Returns (fold_left (λ m p, <[p.1 := p.2]> m) l acc)).
Proof.
  revert acc. induction l as [|[k v] l IH]; intros acc; simpl; [done|].
  apply IH.
Qed.

Lemma load_data_dumped (file : string) (stock : gmap string Z) (w : world) :
  files w !! file = Some (Document (json_dump stock)) →
  load_data int_of_str file w
  = (World stock (files w) (readonly w) (logger w ++ [(INFO, Loaded file)]) (stdout w),
     Returns tt).
Proof.
  intros Hfile. unfold load_data. rewrite Hfile, json_load_dump.
  unfold bind. rewrite validate_ints, fold_insert_map_to_list.
  unfold_m. by rewrite (right_id ∅ (∪)).
Qed.

Lemma save_data_written (file : string) (w : world) :
  file ∉ readonly w →
  save_data file w
  = (World (stock_data w) (<[file := Document (json_dump (stock_data w))]> (files w))
           (readonly w) (logger w ++ [(INFO, Saved file)]) (stdout w),
     Returns tt).
Proof. intros Hw. unfold save_data. rewrite decide_False by done. by unfold_m. Qed.

(** C2.  When the write of [save_data] succeeds, both calls return
    normally, saving leaves the stock as it is, and [load_data] from the
    same path then leaves a stock equal to the one that was saved: same
    keys, same integer quantities. *)
Theorem save_then_load (file : string) (w : world) :
  file ∉ readonly w →
  let saved := save_data file w in
  let loaded := load_data int_of_str file saved.1 in
  outcome saved = (stock_data w, Returns tt)
  ∧ outcome loaded = (stock_data w, Returns tt).
Proof.
  intros Hw. simpl. rewrite save_data_written by done. split; [done|].
  rewrite (load_data_dumped file (stock_data w)); [done|].
  simpl. apply lookup_insert_eq.
Qed.

(** ** The quantities in the stock *)

Lemma add_item_stock item qty logs w :
  stock_data (add_item item qty logs w).1 = stock_data w
  ∨ ∃ name q, 0 ≤ q ∧
      stock_data (add_item item qty logs w).1
      = <[name := default 0 (stock_data w !! name) + q]> (stock_data w).
Proof.
  unfold add_item.
  destruct (nonempty_str item) as [name|]; [|by left].
  destruct (as_int qty) as [q|]; [|by left].
  destruct (decide (q < 0)); [by left|].
  right. exists name, q. split; [lia|done].
Qed.

Lemma add_item_non_negative item qty logs w :
  non_negative (stock_data w) → non_negative (stock_data (add_item item qty logs w).1).
Proof.
  intros Hinv. destruct (add_item_stock item qty logs w) as [->|(name & q & Hq & ->)]; [done|].
  intros k v. rewrite lookup_insert. case_decide as Hk.
  - intros [= <-]. destruct (stock_data w !! name) as [c|] eqn:Hc; simpl; [|lia].
    specialize (Hinv name c Hc). lia.
  - apply Hinv.
Qed.

Lemma remove_item_non_negative item qty w :
  non_negative (stock_data w) → non_negative (stock_data (remove_item item qty w).1).
Proof.
  intros Hinv. unfold remove_item.
  destruct (nonempty_str item) as [name|]; [|done].
  destruct (as_int qty) as [q|]; [|done].
  destruct (decide (q <= 0)); [done|]. unfold_m.
  destruct (stock_data w !! name) as [c|] eqn:Hc; simpl; [|done].
  destruct (decide (q >= c)); simpl; intros k v.
  - rewrite lookup_delete. case_decide; [done|apply Hinv].
  - rewrite lookup_insert. case_decide; [|apply Hinv]. intros [= <-]. lia.
Qed.

Lemma get_qty_stock item w : stock_data (get_qty item w).1 = stock_data w.
Proof. unfold get_qty. by destruct (nonempty_str item). Qed.

Lemma save_data_stock file w : stock_data (save_data file w).1 = stock_data w.
Proof. unfold save_data. by case_decide. Qed.

Lemma check_low_items_stock threshold w :
  stock_data (check_low_items threshold w).1 = stock_data w.
Proof.
  unfold check_low_items. destruct (as_int threshold) as [t|]; [|done].
  by destruct (decide (t < 0)).
Qed.

Lemma print_data_stock w : stock_data (print_data w).1 = stock_data w.
Proof. by rewrite print_data_eq. Qed.

(** Every call except [load_data] keeps the quantities non-negative. *)
Lemma step_non_negative (o : op) (w : world) :
  (∀ file, o ≠ Load file) →
  non_negative (stock_data w) → non_negative (stock_data (step int_of_str w o)).
Proof.
  intros Hload Hinv. destruct o; simpl.
  - by apply add_item_non_negative.
  - by apply remove_item_non_negative.
  - by rewrite get_qty_stock.
  - by destruct (Hload file).
  - by rewrite save_data_stock.
  - by rewrite check_low_items_stock.
  - by rewrite print_data_stock.
Qed.

Lemma run_non_negative (ops : list op) (w : world) :
  Forall (λ o, ∀ file, o ≠ Load file) ops →
  non_negative (stock_data w) → non_negative (stock_data (run int_of_str ops w)).
Proof.
  intros Hops. revert w. unfold run.
  induction Hops as [|o ops Ho _ IH]; intros w Hinv; simpl; [done|].
  by apply IH, step_non_negative.
Qed.

(** *** Where a negative quantity can come from

    [load_data] changes the stock only when the loop finishes; what it then
    stores are integers that members of the object converted to. *)

Lemma dict_set_elem {V} (k : string) (v : V) (d : list (string * V)) p :
  p ∈ dict_set k v d → p = (k, v) ∨ p ∈ d.
Proof.
  induction d as [|[k' v'] d IH]; simpl.
  - intros ->%list_elem_of_singleton. by left.
  - case_decide.
    + intros [->|Hp]%elem_of_cons; [by left|]. right. by right.
    + intros [->|Hp]%elem_of_cons; [right; by left|].
      destruct (IH Hp) as [->|?]; [by left|]. right. by right.
Qed.

Lemma dict_of_pairs_elem {V} (ms : list (string * V)) p :
  p ∈ dict_of_pairs ms → p ∈ ms.
Proof.
  unfold dict_of_pairs.
  assert (∀ d, p ∈ fold_left (λ d p, dict_set p.1 p.2 d) ms d → p ∈ d ∨ p ∈ ms) as Hgen.
  { induction ms as [|[k v] ms IH]; intros d; simpl; [by left|].
    intros [[->|Hp]%dict_set_elem|Hp]%IH.
    - right. by left.
    - by left.
    - right. by right. }
  intros [Hp%elem_of_nil|Hp]%Hgen; done.
Qed.

Ltac skip_item IH acc :=
  let Hs := fresh "Hs" in let Hf := fresh "Hf" in let Hv := fresh "Hv" in
  let validated := fresh "validated" in let Hret := fresh "Hret" in
  let k := fresh "k" in let n := fresh "n" in let Hk := fresh "Hk" in
  let v := fresh "v" in let Hin := fresh "Hin" in let Hint := fresh "Hint" in
  unfold bind; simpl;
  match goal with |- context [validate _ _ _ ?w'] =>
    destruct (IH acc w') as (Hs & Hf & Hv) end;
  split; [done|]; split; [done|];
  intros validated Hret k n Hk;
  destruct (Hv validated Hret k n Hk) as [?|(v & Hin & Hint)];
  [by left | right; exists v; split; [by right | done]].

Lemma validate_spec (items : list (pyval * pyval)) (acc : gmap string Z) (w : world) :
  stock_data (validate int_of_str items acc w).1 = stock_data w
  ∧ files (validate int_of_str items acc w).1 = files w
  ∧ ∀ validated, (validate int_of_str items acc w).2 = Returns validated →
      ∀ k n, validated !! k = Some n →
        acc !! k = Some n ∨ ∃ v, (PStr k, v) ∈ items ∧ py_int int_of_str v = IntOk n.
Proof.
  revert acc w. induction items as [|[k v] items IH]; intros acc w; simpl.
  { split; [done|]. split; [done|]. intros validated [= <-] k n Hk. by left. }
  destruct (as_str k) as [key|] eqn:Hkey; [|skip_item IH acc].
  assert (k = PStr key) as ->
    by (destruct k; try discriminate Hkey; by injection Hkey as ->).
  destruct (py_int int_of_str v) as [m| | |] eqn:Hint; simpl;
    [|skip_item IH acc..|].
  - destruct (IH (<[key:=m]> acc) w) as (Hs & Hf & Hv).
    split; [done|]. split; [done|].
    intros validated Hret k' n Hk'.
    destruct (Hv validated Hret k' n Hk') as [Hacc|(v' & Hin & Hint')].
    + rewrite lookup_insert in Hacc. case_decide as Heq; [|by left].
      injection Hacc as <-. subst k'. right. exists v. split; [by left|done].
    + right. exists v'. split; [by right|done].
  - split; [done|]. split; [done|]. intros validated [=].
Qed.

Lemma load_data_files file w : files (load_data int_of_str file w).1 = files w.
Proof.
  unfold load_data. destruct (files w !! file) as [[|j|msg|err]|]; try done.
  destruct (json_load j); try done.
  unfold bind. destruct (validate_spec items ∅ w) as (_ & Hf & _).
  by destruct (validate int_of_str items ∅ w) as [w' [validated|e]].
Qed.

Lemma load_data_non_negative file w :
  (∀ c, files w !! file = Some c → harmless int_of_str c) →
  non_negative (stock_data w) →
  non_negative (stock_data (load_data int_of_str file w).1).
Proof.
  intros Hfile Hinv. unfold load_data.
  destruct (files w !! file) as [[|j|msg|err]|]; try done.
  specialize (Hfile _ eq_refl).
  destruct j; try done. simpl in *.
  unfold bind.
  match goal with |- context [validate _ ?items _ _] =>
    destruct (validate_spec items ∅ w) as (Hs & _ & Hv);
    destruct (validate int_of_str items ∅ w) as [w' [validated|e]] end;
    simpl in *; [|by rewrite Hs].
  intros k n. rewrite (right_id ∅ (∪)). intros Hk.
  destruct (Hv validated eq_refl k n Hk) as [Hemp|(v & Hin & Hint)]; [done|].
  apply list_elem_of_fmap in Hin as ([k1 v1] & [= -> ->] & Hin).
  apply dict_of_pairs_elem, list_elem_of_fmap in Hin as ([k2 j] & [= -> ->] & Hin).
  by apply (Hfile k2 j n).
Qed.

Lemma save_data_harmless file w :
  non_negative (stock_data w) →
  (∀ f c, files w !! f = Some c → harmless int_of_str c) →
  ∀ f c, files (save_data file w).1 !! f = Some c → harmless int_of_str c.
Proof.
  intros Hinv Hfs f c. unfold save_data. case_decide; [apply Hfs|]. simpl.
  rewrite lookup_insert. case_decide; [|apply Hfs].
  intros [= <-]. simpl. intros k j n Hin.
  apply list_elem_of_fmap in Hin as ([k' q] & [= -> ->] & Hin). simpl.
  intros [= <-]. apply elem_of_map_to_list in Hin. by apply (Hinv k').
Qed.

Lemma step_files (o : op) (w : world) :
  (∀ file, o ≠ Save file) → files (step int_of_str w o) = files w.
Proof.
  intros Hsave. destruct o; simpl.
  - unfold add_item. destruct (nonempty_str item); [|done].
    destruct (as_int qty) as [q|]; [|done]. by destruct (decide (q < 0)).
  - unfold remove_item. destruct (nonempty_str item); [|done].
    destruct (as_int qty) as [q|]; [|done]. destruct (decide (q <= 0)); [done|].
    unfold_m. destruct (stock_data w !! _) as [c|]; [|done].
    by destruct (decide (q >= c)).
  - unfold get_qty. by destruct (nonempty_str item).
  - apply load_data_files.
  - by destruct (Hsave file).
  - unfold check_low_items. destruct (as_int threshold) as [t|]; [|done].
    by destruct (decide (t < 0)).
  - by rewrite print_data_eq.
Qed.

(** As long as every file is harmless (as the files [save_data] writes are),
    every sequence of calls keeps the quantities non-negative. *)
Lemma run_non_negative_harmless (ops : list op) (w : world) :
  (∀ f c, files w !! f = Some c → harmless int_of_str c) →
  non_negative (stock_data w) →
  non_negative (stock_data (run int_of_str ops w)).
Proof.
  unfold run. revert w. induction ops as [|o ops IH]; intros w Hfs Hinv; [done|].
  simpl. apply IH.
  - destruct o; try (rewrite step_files by done; apply Hfs).
    by apply save_data_harmless.
  - destruct o; try (by apply step_non_negative).
    apply load_data_non_negative; [|done]. intros c. apply Hfs.
Qed.

(** C1.  [load_data] stores whatever integer the file holds: from the empty
    stock of process start, loading the object [{"apple": -5}] returns
    normally and leaves the entry ["apple"] with quantity -5, so the stock
    is no longer non-negative. *)
Theorem load_data_negative_quantity :
  let w := run int_of_str [Load "inventory.json"] (boot negative_file ∅) in
  (load_data int_of_str "inventory.json" (boot negative_file ∅)).2 = Returns tt
  ∧ stock_data w !! "apple" = Some (-5)
  ∧ ¬ non_negative (stock_data w).
Proof.
  assert (stock_data (run int_of_str [Load "inventory.json"] (boot negative_file ∅))
          = {["apple" := -5]}) as Hrun by (by vm_compute).
  intros w. subst w. rewrite Hrun. split; [by vm_compute|]. split; [done|].
  intros Hinv. specialize (Hinv "apple" (-5) eq_refl). lia.
Qed.

End Persistence.

(** * The theorems at concrete inputs *)

Lemma add_item_invalid_witness :
  ∃ msg, msg ∈ validation_messages ∧
    add_item (PStr "banana") (PInt (-2)) None example_world
    = (example_world, Raises (ValueError msg)).
Proof.
  apply add_item_invalid. right. right. exists (-2). split; [reflexivity|lia].
Defined.

Lemma get_qty_after_adds_witness :
  (get_qty (PStr "apple") (add_each "apple" [10; 0; 5] example_world)).2 = Returns 25.
Proof.
  destruct (get_qty_after_adds "apple" [10; 0; 5] example_world) as (Hsum & _ & _).
  - discriminate.
  - repeat constructor; lia.
  - exact (Hsum 10 eq_refl).
Defined.

Lemma remove_item_present_witness :
  outcome (remove_item (PStr "apple") (PInt 3) example_world)
  = (<["apple" := 7]> example_stock, Returns tt)
  ∧ outcome (remove_item (PStr "banana") (PInt 2) example_world)
    = (delete "banana" example_stock, Returns tt).
Proof.
  split.
  - destruct (remove_item_present "apple" (PInt 3) 3 10 example_world) as (_ & Hdec);
      [discriminate | reflexivity | lia | reflexivity |].
    apply Hdec. lia.
  - destruct (remove_item_present "banana" (PInt 2) 2 2 example_world) as (Hdel & _);
      [discriminate | reflexivity | lia | reflexivity |].
    apply Hdel. lia.
Defined.

Lemma remove_item_absent_witness :
  outcome (remove_item (PStr "orange") (PInt 1) example_world)
  = (example_stock, Raises (ValueError "Item 'orange' not found")).
Proof.
  apply (remove_item_absent "orange" (PInt 1) 1 example_world);
    [discriminate | reflexivity | lia | reflexivity].
Defined.



Lemma check_low_items_spec_witness :
  check_low_items (PInt 5) example_world = (example_world, Returns ["banana"])
  ∧ check_low_items (PInt (-1)) example_world
    = (example_world, Raises (ValueError "threshold must be a non-negative integer")).
Proof.
  split.
  - destruct (check_low_items_spec (PInt 5) example_world) as (_ & _ & H).
    apply H. reflexivity.
  - destruct (check_low_items_spec (PInt (-1)) example_world) as (_ & H & _).
    apply H. right. exists (-1). split; [reflexivity|lia].
Defined.

Lemma print_data_report_witness :
  stdout (print_data (boot ∅ ∅)).1 = ["Items Report"; "(no items)"]
  ∧ stdout (print_data example_world).1
    = ["Items Report"; "apple -> 10"; "banana -> 2"; "pear -> 5"].
Proof.
  split.
  - destruct (print_data_report (boot ∅ ∅)) as (body & Hrun & Hempty & _).
    rewrite Hrun, Hempty; reflexivity.
  - destruct (print_data_report example_world) as (body & Hrun & _ & Hlisting).
    destruct Hlisting as (items & Hbody & _ & _ & Hunique).
    { apply insert_non_empty. }
    rewrite Hrun, Hbody.
    rewrite <- (Hunique [("apple", 10); ("banana", 2); ("pear", 5)]).
    + reflexivity.
    + reflexivity.
    + repeat constructor.
Defined.

Lemma add_zero_retained_witness :
  stock_data (add_item (PStr "kiwi") (PInt 0) None example_world).1
  = <["kiwi" := 0]> example_stock.
Proof.
  destruct (add_zero_retained "kiwi" None example_world) as (_ & H & _);
    [discriminate | reflexivity | exact H].
Defined.

Lemma save_then_load_witness :
  outcome (load_data no_literal "inventory.json"
             (save_data "inventory.json" example_world).1)
  = (example_stock, Returns tt).
Proof.
  destruct (save_then_load no_literal "inventory.json" example_world) as (_ & H).
  - apply not_elem_of_empty.
  - exact H.
Defined.

(** The scenario of the spec: add 10 apples, remove 3, remove 7. *)
Example scenario :
  let w1 := (add_item (PStr "apple") (PInt 10) None (boot ∅ ∅)).1 in
  let w2 := (remove_item (PStr "apple") (PInt 3) w1).1 in
  let w3 := (remove_item (PStr "apple") (PInt 7) w2).1 in
  (get_qty (PStr "apple") w1).2 = Returns 10
  ∧ (get_qty (PStr "apple") w2).2 = Returns 7
  ∧ stock_data w3 !! "apple" = None
  ∧ (get_qty (PStr "apple") w3).2 = Returns 0.
Proof. by vm_compute. Qed.

(** * Further properties of the stock operations *)

(** ** [remove_item] *)

Lemma remove_item_valid name qty q w :
  name ≠ "" → as_int qty = Some q → 0 < q →
  remove_item (PStr name) qty w
  = match stock_data w !! name with
    | None =>
        (World (stock_data w) (files w) (readonly w)
               (logger w ++ [(WARNING, RemoveMissing name)]) (stdout w),
         Raises (ValueError ("Item '" +:+ name +:+ "' not found")))
    | Some current =>
        if decide (q >= current) then
          (World (delete name (stock_data w)) (files w) (readonly w)
                 (logger w ++ [(INFO, RemovedAll name current)]) (stdout w),
           Returns tt)
        else
          (World (<[name := current - q]> (stock_data w)) (files w) (readonly w)
                 (logger w ++ [(INFO, Decreased name q (current - q))]) (stdout w),
           Returns tt)
    end.
Proof.
  intros Hne Hq Hpos. unfold remove_item.
  rewrite nonempty_str_PStr by done. rewrite Hq.
  destruct (decide (q <= 0)); [lia|]. unfold_m.
  destruct (stock_data w !! name) as [current|]; [|done].
  by destruct (decide (q >= current)).
Qed.

Lemma remove_item_returns item qty w :
  (remove_item item qty w).2 = Returns tt →
  ∃ name q, item = PStr name ∧ name ≠ "" ∧ as_int qty = Some q ∧ 0 < q.
Proof.
  unfold remove_item.
  destruct (nonempty_str item) as [name|] eqn:Hitem; [|done].
  apply nonempty_str_Some in Hitem as [-> Hne].
  destruct (as_int qty) as [q|]; [|done].
  destruct (decide (q <= 0)); [done|].
  intros _. exists name, q. repeat split; [done|lia].
Qed.

(** X1.  [remove_item] called with an empty or non-string item, with a qty
    that is not an [int], or with a qty ≤ 0 raises [ValueError] before it
    looks at the stock: the world, logger included, is left as it was, even
    when the item is in stock. *)
Theorem remove_item_invalid (item qty : pyval) (w : world) :
  nonempty_str item = None ∨ as_int qty = None ∨ (∃ q, as_int qty = Some q ∧ q ≤ 0) →
  ∃ msg, msg ∈ ["item must be a non-empty string"; "qty must be a positive integer"]
         ∧ remove_item item qty w = (w, Raises (ValueError msg)).
Proof.
  intros H. unfold remove_item.
  destruct (nonempty_str item) as [name|] eqn:Hitem.
  - destruct H as [H | [H | (q & Hq & Hneg)]]; [done | |].
    + rewrite H. eexists. split; [|done]. repeat constructor.
    + rewrite Hq. destruct (decide (q <= 0)); [|lia].
      eexists. split; [|done]. repeat constructor.
  - eexists. split; [|done]. repeat constructor.
Qed.

Lemma remove_item_invalid_witness :
  ∃ msg, msg ∈ ["item must be a non-empty string"; "qty must be a positive integer"]
         ∧ remove_item (PStr "apple") (PInt 0) example_world
           = (example_world, Raises (ValueError msg)).
Proof.
  apply remove_item_invalid. right. right. exists 0. split; [reflexivity|lia].
Defined.

(** X2.  When [remove_item] returns normally, the item was in stock, and
    afterwards it is either gone or left with a quantity that is at least 1
    and smaller than before: no call leaves a quantity ≤ 0 behind for the
    item it removes from, whatever the quantity was (0 and negative
    included). *)
Theorem remove_item_leaves_positive (name : string) (qty : pyval) (w : world) :
  (remove_item (PStr name) qty w).2 = Returns tt →
  ∃ current, stock_data w !! name = Some current
    ∧ ∀ left, stock_data (remove_item (PStr name) qty w).1 !! name = Some left →
              1 ≤ left < current.
Proof.
  intros Hret.
  destruct (remove_item_returns _ _ _ Hret) as (name' & q & [= <-] & Hne & Hq & Hpos).
  revert Hret. rewrite (remove_item_valid name qty q) by done.
  destruct (stock_data w !! name) as [current|]; [|done].
  intros _. exists current. split; [done|].
  destruct (decide (q >= current)); simpl; intros left.
  - by rewrite lookup_delete_eq.
  - rewrite lookup_insert_eq. intros [= <-]. lia.
Qed.

Lemma remove_item_leaves_positive_witness :
  ∃ current, stock_data example_world !! "apple" = Some current
    ∧ ∀ left,
        stock_data (remove_item (PStr "apple") (PInt 3) example_world).1 !! "apple"
        = Some left → 1 ≤ left < current.
Proof. apply remove_item_leaves_positive. reflexivity. Defined.

(** X3.  [add_item] and [remove_item] change at most the entry of the item
    they are called with: whatever the arguments and however the call ends,
    every other name has the quantity it had. *)
Theorem other_items_untouched (item qty : pyval) (logs : option (list message))
    (other : string) (w : world) :
  item ≠ PStr other →
  stock_data (add_item item qty logs w).1 !! other = stock_data w !! other
  ∧ stock_data (remove_item item qty w).1 !! other = stock_data w !! other.
Proof.
  intros Hother. split.
  - unfold add_item.
    destruct (nonempty_str item) as [name|] eqn:Hitem; [|done].
    apply nonempty_str_Some in Hitem as [-> Hne].
    destruct (as_int qty) as [q|]; [|done].
    destruct (decide (q < 0)); [done|]. unfold_m.
    apply lookup_insert_ne. congruence.
  - unfold remove_item.
    destruct (nonempty_str item) as [name|] eqn:Hitem; [|done].
    apply nonempty_str_Some in Hitem as [-> Hne].
    destruct (as_int qty) as [q|]; [|done].
    destruct (decide (q <= 0)); [done|]. unfold_m.
    destruct (stock_data w !! name) as [current|]; [|done].
    destruct (decide (q >= current)); simpl.
    + apply lookup_delete_ne. congruence.
    + apply lookup_insert_ne. congruence.
Qed.

Lemma other_items_untouched_witness :
  stock_data (add_item (PStr "apple") (PInt 4) None example_world).1 !! "pear" = Some 5
  ∧ stock_data (remove_item (PStr "apple") (PInt 4) example_world).1 !! "pear" = Some 5.
Proof.
  apply (other_items_untouched (PStr "apple") (PInt 4) None "pear" example_world).
  discriminate.
Defined.

(** ** Calls one after the other *)

(** X4.  Adding qty > 0 of an item and then removing the same qty undoes the
    add when the item was absent or had a positive quantity: both calls
    return and the stock is the one before.  An entry of quantity ≤ 0 does
    not come back: the pair of calls deletes it. *)
Theorem add_then_remove (name : string) (qty : pyval) (q : Z)
    (logs : option (list message)) (w : world) :
  name ≠ "" → as_int qty = Some q → 0 < q →
  let added := add_item (PStr name) qty logs w in
  let removed := remove_item (PStr name) qty added.1 in
  (∃ logs', added.2 = Returns logs')
  ∧ removed.2 = Returns tt
  ∧ stock_data removed.1
    = match stock_data w !! name with
      | Some current => if decide (0 < current) then stock_data w
                        else delete name (stock_data w)
      | None => stock_data w
      end.
Proof.
  intros Hne Hq Hpos. simpl.
  rewrite (add_item_valid name qty q) by (done || lia).
  rewrite (remove_item_valid name qty q) by done. simpl.
  rewrite lookup_insert_eq. split; [by eexists|].
  destruct (stock_data w !! name) as [current|] eqn:Hcur; simpl.
  - destruct (decide (q >= current + q)), (decide (0 < current)); try lia; simpl.
    + split; [done|]. by rewrite delete_insert_eq.
    + split; [done|]. rewrite insert_insert_eq.
      apply insert_id. rewrite Hcur. f_equal. lia.
  - destruct (decide (q >= 0 + q)); [|lia]. simpl.
    split; [done|]. rewrite delete_insert_eq. by apply delete_id.
Qed.

Lemma add_then_remove_witness :
  stock_data (remove_item (PStr "kiwi") (PInt 4)
                (add_item (PStr "kiwi") (PInt 4) None example_world).1).1
  = example_stock.
Proof.
  destruct (add_then_remove "kiwi" (PInt 4) 4 None example_world) as (_ & _ & H);
    [discriminate | reflexivity | lia | exact H].
Defined.

(** X5.  Removing q1 and then q2 of an item leaves the same stock as
    removing q1 + q2 at once, whether the item runs out on the way (the
    second call then raises and changes nothing) or not. *)
Theorem remove_item_twice (name : string) (q1 q2 : Z) (w : world) :
  name ≠ "" → 0 < q1 → 0 < q2 →
  stock_data (remove_item (PStr name) (PInt q2)
                (remove_item (PStr name) (PInt q1) w).1).1
  = stock_data (remove_item (PStr name) (PInt (q1 + q2)) w).1.
Proof.
  intros Hne H1 H2.
  rewrite (remove_item_valid name (PInt q1) q1 w) by done.
  rewrite (remove_item_valid name (PInt (q1 + q2)) (q1 + q2) w) by (done || lia).
  destruct (stock_data w !! name) as [current|] eqn:Hcur.
  - destruct (decide (q1 >= current)); simpl.
    + rewrite (remove_item_valid name (PInt q2) q2) by done. simpl.
      rewrite lookup_delete_eq. simpl.
      by destruct (decide (q1 + q2 >= current)); [|lia].
    + rewrite (remove_item_valid name (PInt q2) q2) by done. simpl.
      rewrite lookup_insert_eq.
      destruct (decide (q2 >= current - q1)), (decide (q1 + q2 >= current));
        try lia; simpl.
      * by rewrite delete_insert_eq.
      * rewrite insert_insert_eq. f_equal. lia.
  - rewrite (remove_item_valid name (PInt q2) q2) by done. simpl.
    by rewrite Hcur.
Qed.

Lemma remove_item_twice_witness :
  stock_data (remove_item (PStr "apple") (PInt 4)
                (remove_item (PStr "apple") (PInt 3) example_world).1).1
  = stock_data (remove_item (PStr "apple") (PInt (3 + 4)) example_world).1.
Proof. apply remove_item_twice; [discriminate | lia | lia]. Defined.

(** * Further properties of [load_data] and [save_data] *)

Set Warnings "-clear-no-such-hyp".

(** ** The dict of a JSON object *)

Lemma last_member_None {V} (k : string) (ms : list (string * V)) :
  last_member k ms = None ↔ k ∉ ms.*1.
Proof.
  induction ms as [|[k' v] ms IH]; simpl.
  - split; [intros _; apply not_elem_of_nil | done].
  - rewrite not_elem_of_cons, <- IH.
    destruct (last_member k ms); [naive_solver|].
    case_decide; naive_solver.
Qed.

Lemma last_member_nodup {V} (k : string) (v : V) (ms : list (string * V)) :
  NoDup ms.*1 → last_member k ms = Some v ↔ (k, v) ∈ ms.
Proof.
  induction ms as [|[k' v'] ms IH]; simpl.
  - intros _. split; [done | by intros ?%elem_of_nil].
  - intros [Hk' Hnd]%NoDup_cons. rewrite elem_of_cons, <- (IH Hnd).
    destruct (last_member k ms) as [v0|] eqn:Hlast.
    + split; [by right | intros [[= -> ->]|]; [|done]].
      apply last_member_None in Hk'. congruence.
    + case_decide; naive_solver.
Qed.

Lemma last_member_fmap {V W} (f : V → W) (k : string) (ms : list (string * V)) :
  last_member k (map (λ p, (p.1, f p.2)) ms) = f <$> last_member k ms.
Proof.
  induction ms as [|[k' v] ms IH]; simpl; [done|].
  rewrite IH. destruct (last_member k ms); simpl; [done|]. by case_decide.
Qed.

Lemma last_member_elem {V} (k : string) (v : V) (ms : list (string * V)) :
  last_member k ms = Some v → (k, v) ∈ ms.
Proof.
  induction ms as [|[k' v'] ms IH]; simpl; [done|].
  destruct (last_member k ms) as [v0|].
  - intros [= ->]. right. by apply IH.
  - case_decide as Hk; [|done]. intros [= ->]. subst. by left.
Qed.

Lemma dict_set_keys {V} (k : string) (v : V) (d : list (string * V)) :
  (dict_set k v d).*1 = if decide (k ∈ d.*1) then d.*1 else d.*1 ++ [k].
Proof.
  induction d as [|[k' v'] d IH]; [done|].
  change (dict_set k v ((k', v') :: d))
    with (if decide (k = k') then (k, v) :: d else (k', v') :: dict_set k v d).
  destruct (decide (k = k')) as [->|Hne]; rewrite !fmap_cons; simpl fst.
  - rewrite decide_True; [done | by left].
  - rewrite IH. destruct (decide (k ∈ d.*1)) as [Hin|Hout].
    + rewrite decide_True; [done | by right].
    + rewrite decide_False; [done|]. by intros [?|?]%elem_of_cons.
Qed.

Lemma dict_set_nodup {V} (k : string) (v : V) (d : list (string * V)) :
  NoDup d.*1 → NoDup (dict_set k v d).*1.
Proof.
  intros Hnd. rewrite dict_set_keys. case_decide as Hk; [done|].
  apply NoDup_app. split; [done|]. split; [|apply NoDup_singleton].
  intros x Hx ->%list_elem_of_singleton. done.
Qed.

Lemma dict_set_last {V} (k k0 : string) (v0 : V) (d : list (string * V)) :
  NoDup d.*1 →
  last_member k (dict_set k0 v0 d) = if decide (k = k0) then Some v0 else last_member k d.
Proof.
  induction d as [|[k' v'] d IH]; simpl; [done|].
  intros [Hk' Hnd]%NoDup_cons.
  destruct (decide (k0 = k')) as [->|Hne]; simpl.
  - destruct (last_member k d) as [v|] eqn:Hlast; [|by case_decide].
    case_decide as Hk; [|done]. subst k.
    apply last_member_None in Hk'. congruence.
  - rewrite (IH Hnd). by destruct (decide (k = k0)).
Qed.

Lemma dict_of_pairs_spec {V} (ms : list (string * V)) :
  NoDup (dict_of_pairs ms).*1
  ∧ ∀ k, last_member k (dict_of_pairs ms) = last_member k ms.
Proof.
  unfold dict_of_pairs.
  assert (∀ d, NoDup d.*1 →
            NoDup (fold_left (λ d p, dict_set p.1 p.2 d) ms d).*1
            ∧ ∀ k, last_member k (fold_left (λ d p, dict_set p.1 p.2 d) ms d)
                   = match last_member k ms with
                     | Some v => Some v
                     | None => last_member k d
                     end) as Hgen.
  { induction ms as [|[k0 v0] ms IH]; intros d Hnd; simpl; [done|].
    destruct (IH (dict_set k0 v0 d) (dict_set_nodup k0 v0 d Hnd)) as [Hnd' Hlast].
    split; [done|]. intros k. rewrite Hlast, dict_set_last by done.
    destruct (last_member k ms); [done|]. by case_decide. }
  destruct (Hgen [] (NoDup_nil_2)) as [Hnd Hlast]. split; [done|].
  intros k. rewrite Hlast. by destruct (last_member k ms).
Qed.

(** ** The loop of [load_data] *)

Section Loading.

Variable int_of_str : string → option Z.

Abbreviation str_items d := (map (λ p : string * pyval, (PStr p.1, p.2)) d).

Lemma validate_result_indep (items : list (pyval * pyval)) (acc : gmap string Z)
    (w w' : world) :
  (validate int_of_str items acc w).2 = (validate int_of_str items acc w').2.
Proof.
  revert acc w w'. induction items as [|[k v] items IH]; intros acc w w'; simpl; [done|].
  destruct (as_str k) as [key|]; [|unfold bind; simpl; apply IH].
  destruct (py_int int_of_str v); simpl;
    [apply IH | unfold bind; simpl; apply IH.. | done].
Qed.

Lemma validate_raises (items : list (pyval * pyval)) (acc : gmap string Z)
    (w : world) (e : exn) :
  (validate int_of_str items acc w).2 = Raises e → e = OverflowError.
Proof.
  revert acc w. induction items as [|[k v] items IH]; intros acc w; simpl; [done|].
  destruct (as_str k) as [key|]; [|unfold bind; simpl; apply IH].
  destruct (py_int int_of_str v); simpl;
    [apply IH | unfold bind; simpl; apply IH.. | by intros [= <-]].
Qed.

Lemma validate_overflow (d : list (string * pyval)) (acc : gmap string Z)
    (w : world) k v :
  (k, v) ∈ d → py_int int_of_str v = IntOverflowError →
  (validate int_of_str (str_items d) acc w).2 = Raises OverflowError.
Proof.
  intros Hin Hv. revert acc w.
  induction d as [|[k0 v0] d IH]; intros acc w; [by apply elem_of_nil in Hin|].
  simpl. apply elem_of_cons in Hin as [[= <- <-]|Hin].
  - by rewrite Hv.
  - destruct (py_int int_of_str v0); simpl; try done.
    + by apply IH.
    + unfold bind; simpl. by apply IH.
    + unfold bind; simpl. by apply IH.
Qed.

Lemma validate_returns (d : list (string * pyval)) (acc : gmap string Z) (w : world) :
  NoDup d.*1 →
  (∀ k v, (k, v) ∈ d → py_int int_of_str v ≠ IntOverflowError) →
  ∃ m,
    validate int_of_str (str_items d) acc w
    = (World (stock_data w) (files w) (readonly w)
             (logger w ++ map (λ p, (WARNING, SkipValue p.1 p.2))
                            (filter (λ p, converted int_of_str p.2 = None) d))
             (stdout w),
       Returns m)
    ∧ ∀ k, m !! k = match last_member k d with
                    | Some v => match converted int_of_str v with
                                | Some n => Some n
                                | None => acc !! k
                                end
                    | None => acc !! k
                    end.
Proof.
  revert acc w. induction d as [|[k0 v0] d IH]; intros acc w Hnd Hfin.
  { exists acc. simpl. rewrite app_nil_r. split; [by destruct w | done]. }
  rewrite fmap_cons in Hnd. apply NoDup_cons in Hnd as [Hk0 Hnd]. simpl in Hk0.
  assert (∀ k v, (k, v) ∈ d → py_int int_of_str v ≠ IntOverflowError) as Hfin'
    by (intros k v Hin; apply (Hfin k v); by right).
  assert (py_int int_of_str v0 ≠ IntOverflowError) as Hv0
    by (apply (Hfin k0 v0); by left).
  apply last_member_None in Hk0.
  rewrite filter_cons. simpl.
  destruct (py_int int_of_str v0) as [n0| | |] eqn:Hint; [| | |done].
  - assert (converted int_of_str v0 = Some n0) as Hconv
      by (unfold converted; by rewrite Hint).
    destruct (IH (<[k0:=n0]> acc) w Hnd Hfin') as (m & -> & Hm).
    exists m. rewrite decide_False by (by rewrite Hconv). split; [done|].
    intros k. rewrite Hm.
    destruct (last_member k d) as [v|] eqn:Hlast.
    + destruct (converted int_of_str v); [done|].
      apply lookup_insert_ne. congruence.
    + rewrite lookup_insert.
      destruct (decide (k0 = k)), (decide (k = k0)); try congruence.
      by rewrite Hconv.
  - assert (converted int_of_str v0 = None) as Hconv
      by (unfold converted; by rewrite Hint).
    unfold bind. simpl. rewrite decide_True by done.
    match goal with |- context [validate _ _ _ ?w'] =>
      destruct (IH acc w' Hnd Hfin') as (m & -> & Hm) end.
    exists m. simpl. rewrite <- app_assoc. split; [done|].
    intros k. rewrite Hm.
    destruct (last_member k d); [done|]. case_decide; [|done]. by rewrite Hconv.
  - assert (converted int_of_str v0 = None) as Hconv
      by (unfold converted; by rewrite Hint).
    unfold bind. simpl. rewrite decide_True by done.
    match goal with |- context [validate _ _ _ ?w'] =>
      destruct (IH acc w' Hnd Hfin') as (m & -> & Hm) end.
    exists m. simpl. rewrite <- app_assoc. split; [done|].
    intros k. rewrite Hm.
    destruct (last_member k d); [done|]. case_decide; [|done]. by rewrite Hconv.
Qed.

(** ** Loading an object *)

Abbreviation object_dict ms :=
  (dict_of_pairs (map (λ p : string * json, (p.1, json_load p.2)) ms)).

Lemma object_dict_spec (ms : list (string * json)) :
  NoDup (object_dict ms).*1
  ∧ ∀ k, last_member k (object_dict ms) = json_load <$> last_member k ms.
Proof.
  destruct (dict_of_pairs_spec (map (λ p : string * json, (p.1, json_load p.2)) ms))
    as [Hnd Hlast].
  split; [done|]. intros k. by rewrite Hlast, last_member_fmap.
Qed.

Lemma object_dict_elem (ms : list (string * json)) k v :
  (k, v) ∈ object_dict ms → ∃ j, last_member k ms = Some j ∧ v = json_load j.
Proof.
  destruct (object_dict_spec ms) as [Hnd Hlast]. intros Hin.
  apply (last_member_nodup k v _ Hnd) in Hin. rewrite Hlast in Hin.
  destruct (last_member k ms) as [j|]; [|done].
  injection Hin as <-. by exists j.
Qed.

(** X6.  An object file is loaded as a whole or not at all: when no member
    that [json.load] keeps is an infinite float, [load_data] returns and the
    stock afterwards holds, for each name, the integer that the last member
    of that name converts to, and nothing else: names whose last member does
    not convert are absent, even if an earlier member of the same name or
    the old stock had them. *)
Theorem load_data_object (file : string) (ms : list (string * json)) (w : world) :
  files w !! file = Some (Document (JObj ms)) →
  (∀ k j, last_member k ms = Some j →
          py_int int_of_str (json_load j) ≠ IntOverflowError) →
  (load_data int_of_str file w).2 = Returns tt
  ∧ ∀ k, stock_data (load_data int_of_str file w).1 !! k
         = last_member k ms ≫= loaded int_of_str.
Proof.
  intros Hfile Hfin. unfold load_data. rewrite Hfile.
  change (json_load (JObj ms)) with (PDict (str_items (object_dict ms))).
  destruct (object_dict_spec ms) as [Hnd Hlast].
  destruct (validate_returns (object_dict ms) ∅ w Hnd) as (m & Hrun & Hm).
  { intros k v (j & Hj & ->)%object_dict_elem. by apply (Hfin k j). }
  unfold bind. rewrite Hrun. simpl. split; [done|].
  intros k. rewrite (right_id ∅ (∪)), Hm, Hlast, lookup_empty.
  destruct (last_member k ms) as [j|]; simpl; [|done].
  unfold loaded. by destruct (converted int_of_str (json_load j)).
Qed.

(** X7.  When a member that [json.load] keeps is an infinite float,
    [load_data] raises [OverflowError] to its caller ([int] raises it and
    the loop catches only [TypeError] and [ValueError]); the stock is the
    one before the call. *)
Theorem load_data_overflow (file : string) (ms : list (string * json))
    (k : string) (j : json) (w : world) :
  files w !! file = Some (Document (JObj ms)) →
  last_member k ms = Some j →
  py_int int_of_str (json_load j) = IntOverflowError →
  outcome (load_data int_of_str file w) = (stock_data w, Raises OverflowError).
Proof.
  intros Hfile Hj Hinf. unfold load_data, outcome. rewrite Hfile.
  change (json_load (JObj ms)) with (PDict (str_items (object_dict ms))).
  destruct (object_dict_spec ms) as [Hnd Hlast].
  assert ((k, json_load j) ∈ object_dict ms) as Hin.
  { apply (last_member_nodup _ _ _ Hnd). by rewrite Hlast, Hj. }
  pose proof (validate_overflow (object_dict ms) ∅ w k (json_load j) Hin Hinf) as Hraise.
  destruct (validate_spec int_of_str (str_items (object_dict ms)) ∅ w) as (Hs & _ & _).
  unfold bind.
  destruct (validate int_of_str (str_items (object_dict ms)) ∅ w) as [w' [m|e]];
    simpl in *; [done|]. injection Hraise as ->. by rewrite Hs.
Qed.

(** X8.  Whenever [load_data] raises, whatever the exception (the
    [OSError] of [open], the [UnicodeDecodeError] of reading the file, the
    [OverflowError] of [int]), the stock and the files are exactly as before
    the call: the old stock is cleared only once the whole object has been
    read and validated. *)
Theorem load_data_raises (file : string) (w : world) (e : exn) :
  (load_data int_of_str file w).2 = Raises e →
  stock_data (load_data int_of_str file w).1 = stock_data w
  ∧ files (load_data int_of_str file w).1 = files w.
Proof.
  rewrite load_data_files. unfold load_data.
  destruct (files w !! file) as [[|j|msg|err]|]; try done.
  destruct (json_load j) as [| | | | | |items]; try done.
  unfold bind.
  destruct (validate_spec int_of_str items ∅ w) as (Hs & _ & _).
  destruct (validate int_of_str items ∅ w) as [w' [m|e']]; simpl in *; [done|].
  by intros _.
Qed.

(** X9.  On an object without repeated names that [load_data] can load, the
    logger receives one WARNING per member that does not convert to an
    integer, in file order, followed by the INFO record of the load; no
    other record is written. *)
Theorem load_data_warnings (file : string) (ms : list (string * json)) (w : world) :
  files w !! file = Some (Document (JObj ms)) →
  NoDup ms.*1 →
  (∀ k j, (k, j) ∈ ms → py_int int_of_str (json_load j) ≠ IntOverflowError) →
  logger (load_data int_of_str file w).1
  = logger w
    ++ map (λ p, (WARNING, SkipValue p.1 (json_load p.2)))
         (filter (λ p, loaded int_of_str p.2 = None) ms)
    ++ [(INFO, Loaded file)].
Proof.
  intros Hfile Hnd Hfin. unfold load_data. rewrite Hfile.
  change (json_load (JObj ms)) with (PDict (str_items (object_dict ms))).
  assert (object_dict ms = map (λ p : string * json, (p.1, json_load p.2)) ms) as ->.
  { apply dict_of_pairs_nodup. by rewrite <- list_fmap_compose. }
  destruct (validate_returns (map (λ p : string * json, (p.1, json_load p.2)) ms) ∅ w)
    as (m & Hrun & _).
  { by rewrite <- list_fmap_compose. }
  { intros k v ([k' j] & [= -> ->] & Hin)%list_elem_of_fmap. by apply (Hfin k' j). }
  unfold bind. rewrite Hrun. simpl. rewrite <- app_assoc. do 2 f_equal.
  clear. induction ms as [|[k j] ms IH]; [done|].
  rewrite map_cons, !filter_cons. simpl. unfold loaded at 1.
  repeat case_decide; simpl; try done; by rewrite IH.
Qed.

(** ** Loading again, and loading after a save *)

Lemma load_data_outcome (file : string) (w : world) :
  outcome (load_data int_of_str file w)
  = match files w !! file with
    | Some (Document j) =>
        match json_load j with
        | PDict items =>
            match (validate int_of_str items ∅ w).2 with
            | Returns m => (m ∪ ∅, Returns tt)
            | Raises e => (stock_data w, Raises e)
            end
        | _ => (stock_data w, Returns tt)
        end
    | Some (Undecodable msg) => (stock_data w, Raises (UnicodeDecodeError msg))
    | Some (Unopenable err) => (stock_data w, Raises (OSError err))
    | _ => (stock_data w, Returns tt)
    end.
Proof.
  unfold load_data, outcome.
  destruct (files w !! file) as [[|j|msg|err]|]; try done.
  destruct (json_load j) as [| | | | | |items]; try done.
  unfold bind.
  destruct (validate_spec int_of_str items ∅ w) as (Hs & _ & _).
  destruct (validate int_of_str items ∅ w) as [w' [m|e]]; simpl in *; [done|].
  by rewrite Hs.
Qed.

Lemma load_data_congr (file : string) (w1 w2 : world) :
  files w1 !! file = files w2 !! file → stock_data w1 = stock_data w2 →
  outcome (load_data int_of_str file w1) = outcome (load_data int_of_str file w2).
Proof.
  intros Hf Hs. rewrite !load_data_outcome, Hf, Hs.
  destruct (files w2 !! file) as [[|j|msg|err]|]; try done.
  destruct (json_load j) as [| | | | | |items]; try done.
  by rewrite (validate_result_indep items ∅ w1 w2).
Qed.

(** X10.  Loading the same file a second time changes nothing more: the
    second call ends as the first did and leaves the stock the first left. *)
Theorem load_data_again (file : string) (w : world) :
  outcome (load_data int_of_str file (load_data int_of_str file w).1)
  = (stock_data (load_data int_of_str file w).1, (load_data int_of_str file w).2).
Proof.
  change (stock_data (load_data int_of_str file w).1, (load_data int_of_str file w).2)
    with (outcome (load_data int_of_str file w)).
  rewrite (load_data_outcome file (load_data int_of_str file w).1), load_data_files.
  pose proof (load_data_outcome file w) as Hfirst. rewrite Hfirst.
  destruct (files w !! file) as [[|j|msg|err]|]; try by injection Hfirst as -> _.
  destruct (json_load j) as [| | | | | |items]; try by injection Hfirst as -> _.
  rewrite (validate_result_indep items ∅ _ w).
  destruct (validate int_of_str items ∅ w).2 as [m|e]; [done|].
  by injection Hfirst as -> _.
Qed.

(** X11.  When the file cannot be opened for writing, [save_data] returns
    normally, leaves the stock and every file as they were and hands one
    ERROR record to the logger; a [load_data] from that path afterwards
    behaves as it would have without the save. *)
Theorem save_data_unwritable (file : string) (w : world) :
  file ∈ readonly w →
  save_data file w
  = (World (stock_data w) (files w) (readonly w)
           (logger w ++ [(ERROR, SaveFailed file)]) (stdout w), Returns tt)
  ∧ outcome (load_data int_of_str file (save_data file w).1)
    = outcome (load_data int_of_str file w).
Proof.
  intros Hro. unfold save_data. rewrite decide_True by done.
  split; [done|]. by apply load_data_congr.
Qed.

End Loading.

(** ** The theorems on loading and saving at concrete inputs *)

Lemma load_data_object_witness :
  stock_data (load_data no_literal "inventory.json" (world_with repeated_members)).1
    !! "apple" = None
  ∧ stock_data (load_data no_literal "inventory.json" (world_with repeated_members)).1
    !! "pear" = Some 4.
Proof.
  destruct (load_data_object no_literal "inventory.json" repeated_members
              (world_with repeated_members)) as [_ H].
  - reflexivity.
  - intros k j Hin%last_member_elem.
    repeat (apply elem_of_cons in Hin as [[= -> ->]|Hin]); try discriminate.
    by apply elem_of_nil in Hin.
  - split; rewrite H; reflexivity.
Defined.

Lemma load_data_overflow_witness :
  outcome (load_data no_literal "inventory.json" (world_with infinite_members))
  = (example_stock, Raises OverflowError).
Proof.
  apply (load_data_overflow no_literal "inventory.json" infinite_members "pear"
           (JFloat (S754_infinity false))); reflexivity.
Defined.

Lemma load_data_raises_witness :
  stock_data (load_data no_literal "inventory.json" (world_with infinite_members)).1
  = example_stock.
Proof.
  apply (load_data_raises no_literal "inventory.json" (world_with infinite_members)
           OverflowError).
  reflexivity.
Defined.

Lemma load_data_warnings_witness :
  logger (load_data no_literal "inventory.json" (world_with mixed_members)).1
  = [(WARNING, SkipValue "pear" PNone); (WARNING, SkipValue "fig" (PStr "many"));
     (INFO, Loaded "inventory.json")].
Proof.
  rewrite (load_data_warnings no_literal "inventory.json" mixed_members).
  - reflexivity.
  - reflexivity.
  - apply (bool_decide_unpack _). exact I.
  - intros k j Hin.
    repeat (apply elem_of_cons in Hin as [[= -> ->]|Hin]); try discriminate.
    by apply elem_of_nil in Hin.
Defined.

Lemma save_data_unwritable_witness :
  outcome (load_data no_literal "inventory.json"
             (save_data "inventory.json"
                (World example_stock ∅ {["inventory.json"]} [] [])).1)
  = (example_stock, Returns tt).
Proof.
  destruct (save_data_unwritable no_literal "inventory.json"
              (World example_stock ∅ {["inventory.json"]} [] [])) as [_ H].
  - simpl. by apply elem_of_singleton.
  - rewrite H. reflexivity.
Defined.

(** * Further properties of [check_low_items] and of sequences of calls *)

(** X13.  Raising the threshold never drops a name: every name
    [check_low_items] returns for a threshold is returned for every larger
    one. *)
Theorem check_low_items_monotone (t1 t2 : Z) (names1 names2 : list string) (w : world) :
  0 ≤ t1 ≤ t2 →
  (check_low_items (PInt t1) w).2 = Returns names1 →
  (check_low_items (PInt t2) w).2 = Returns names2 →
  names1 ⊆ names2.
Proof.
  intros Ht. rewrite (check_low_items_valid t1), (check_low_items_valid t2) by (done || lia).
  simpl. intros [= <-] [= <-] name.
  destruct (low_items_spec (stock_data w) t1) as [_ H1].
  destruct (low_items_spec (stock_data w) t2) as [_ H2].
  rewrite (H1 name), (H2 name). intros (q & Hq & Hlt). exists q. split; [done|lia].
Qed.

Lemma check_low_items_monotone_witness :
  ["banana"] ⊆ ["banana"; "pear"].
Proof.
  apply (check_low_items_monotone 5 6 ["banana"] ["banana"; "pear"] example_world);
    [lia | reflexivity | reflexivity].
Defined.

(** X14.  [get_qty] and [check_low_items] disagree on an item that is not
    in stock: [get_qty] reports quantity 0 for it, yet no threshold makes
    [check_low_items] list it. *)
Theorem absent_item_not_low (name : string) (threshold : pyval) (names : list string)
    (w : world) :
  name ≠ "" → stock_data w !! name = None →
  (check_low_items threshold w).2 = Returns names →
  (get_qty (PStr name) w).2 = Returns 0 ∧ name ∉ names.
Proof.
  intros Hne Habs. rewrite get_qty_valid by done. simpl. rewrite Habs.
  unfold check_low_items. destruct (as_int threshold) as [t|]; [|done].
  destruct (decide (t < 0)); [done|]. unfold_m. intros [= <-]. split; [done|].
  destruct (low_items_spec (stock_data w) t) as [_ H]. rewrite (H name).
  intros (q & Hq & _). congruence.
Qed.

Lemma absent_item_not_low_witness :
  (get_qty (PStr "kiwi") example_world).2 = Returns 0 ∧ "kiwi" ∉ ["banana"].
Proof.
  apply (absent_item_not_low "kiwi" (PInt 5) ["banana"] example_world);
    [discriminate | reflexivity | reflexivity].
Defined.

(** ** The data model along a run *)

Section Soundness.

Variable int_of_str : string → option Z.

Lemma add_item_sound item qty logs w :
  sound_stock (stock_data w) → sound_stock (stock_data (add_item item qty logs w).1).
Proof.
  intros Hinv. unfold add_item.
  destruct (nonempty_str item) as [name|] eqn:Hitem; [|done].
  apply nonempty_str_Some in Hitem as [-> Hne].
  destruct (as_int qty) as [q|]; [|done].
  destruct (decide (q < 0)); [done|]. unfold_m.
  intros k v. rewrite lookup_insert. case_decide as Hk; [|apply Hinv].
  subst k. intros [= <-]. split; [done|].
  destruct (stock_data w !! name) as [c|] eqn:Hc; simpl; [|lia].
  destruct (Hinv name c Hc). lia.
Qed.

Lemma remove_item_sound item qty w :
  sound_stock (stock_data w) → sound_stock (stock_data (remove_item item qty w).1).
Proof.
  intros Hinv. unfold remove_item.
  destruct (nonempty_str item) as [name|] eqn:Hitem; [|done].
  apply nonempty_str_Some in Hitem as [-> Hne].
  destruct (as_int qty) as [q|]; [|done].
  destruct (decide (q <= 0)); [done|]. unfold_m.
  destruct (stock_data w !! name) as [c|] eqn:Hc; simpl; [|done].
  destruct (decide (q >= c)); simpl; intros k v.
  - rewrite lookup_delete. case_decide; [done|apply Hinv].
  - rewrite lookup_insert. case_decide as Hk; [|apply Hinv].
    subst k. intros [= <-]. split; [done|lia].
Qed.

Lemma load_data_sound file w :
  (∀ c, files w !! file = Some c → sound_file int_of_str c) →
  sound_stock (stock_data w) →
  sound_stock (stock_data (load_data int_of_str file w).1).
Proof.
  intros Hfile Hinv. unfold load_data.
  destruct (files w !! file) as [[|j|msg|err]|]; try done.
  specialize (Hfile _ eq_refl).
  destruct j as [| | | | | |ms]; try done. simpl in *.
  unfold bind.
  match goal with |- context [validate _ ?items _ _] =>
    destruct (validate_spec int_of_str items ∅ w) as (Hs & _ & Hv);
    destruct (validate int_of_str items ∅ w) as [w' [validated|e]] end;
    simpl in *; [|by rewrite Hs].
  intros k n. rewrite (right_id ∅ (∪)). intros Hk.
  destruct (Hv validated eq_refl k n Hk) as [Hemp|(v & Hin & Hint)]; [done|].
  apply list_elem_of_fmap in Hin as ([k1 v1] & [= -> ->] & Hin).
  apply dict_of_pairs_elem, list_elem_of_fmap in Hin as ([k2 j] & [= -> ->] & Hin).
  by apply (Hfile k2 j n).
Qed.

Lemma save_data_sound file w :
  sound_stock (stock_data w) →
  (∀ f c, files w !! f = Some c → sound_file int_of_str c) →
  ∀ f c, files (save_data file w).1 !! f = Some c → sound_file int_of_str c.
Proof.
  intros Hinv Hfs f c. unfold save_data. case_decide; [apply Hfs|]. simpl.
  rewrite lookup_insert. case_decide; [|apply Hfs].
  intros [= <-]. simpl. intros k j n Hin.
  apply list_elem_of_fmap in Hin as ([k' q] & [= -> ->] & Hin). simpl.
  intros [= <-]. apply elem_of_map_to_list in Hin. by apply (Hinv k').
Qed.

Lemma step_sound (o : op) (w : world) :
  (∀ f c, files w !! f = Some c → sound_file int_of_str c) →
  sound_stock (stock_data w) →
  (∀ f c, files (step int_of_str w o) !! f = Some c → sound_file int_of_str c)
  ∧ sound_stock (stock_data (step int_of_str w o)).
Proof.
  intros Hfs Hinv. split.
  - destruct o; try (rewrite step_files by done; apply Hfs).
    by apply save_data_sound.
  - destruct o; simpl.
    + by apply add_item_sound.
    + by apply remove_item_sound.
    + by rewrite get_qty_stock.
    + apply load_data_sound; [|done]. intros c. apply Hfs.
    + by rewrite save_data_stock.
    + by rewrite check_low_items_stock.
    + by rewrite print_data_stock.
Qed.

Lemma run_sound (ops : list op) (w : world) :
  (∀ f c, files w !! f = Some c → sound_file int_of_str c) →
  sound_stock (stock_data w) →
  sound_stock (stock_data (run int_of_str ops w)).
Proof.
  unfold run. revert w. induction ops as [|o ops IH]; intros w Hfs Hinv; [done|].
  simpl. destruct (step_sound o w Hfs Hinv). by apply IH.
Qed.

(** X15.  A process that starts with the empty stock and no file at all
    keeps to the data model whatever it calls, loads of its own saved files
    included: after any sequence of calls every name in stock is a
    non-empty string and every quantity is ≥ 0. *)
Theorem run_from_scratch (ops : list op) (ro : gset string) :
  sound_stock (stock_data (run int_of_str ops (boot ∅ ro))).
Proof. apply run_sound; [intros f c|intros k q]; simpl; by rewrite lookup_empty. Qed.

(** X16.  More generally, every sequence of calls keeps the stock to the
    data model as long as the files present at the start are sound: the
    only way to a negative quantity or an empty name is a [load_data] of a
    file that was not written by [save_data]. *)
Theorem run_keeps_sound (ops : list op) (w : world) :
  (∀ f c, files w !! f = Some c → sound_file int_of_str c) →
  sound_stock (stock_data w) →
  sound_stock (stock_data (run int_of_str ops w))
  ∧ ∀ f c, files (run int_of_str ops w) !! f = Some c → sound_file int_of_str c.
Proof.
  unfold run. revert w. induction ops as [|o ops IH]; intros w Hfs Hinv; [done|].
  simpl. destruct (step_sound o w Hfs Hinv). by apply IH.
Qed.

End Soundness.

Lemma run_keeps_sound_witness :
  sound_stock
    (stock_data
       (run no_literal
          [Save "inventory.json"; Remove (PStr "apple") (PInt 20);
           Load "inventory.json"; Add (PStr "kiwi") (PInt 0) None]
          (World example_stock ∅ ∅ [] []))).
Proof.
  apply run_keeps_sound.
  - intros f c. simpl. by rewrite lookup_empty.
  - intros k q Hk. simpl in Hk. unfold example_stock in Hk.
    rewrite !lookup_insert in Hk.
    repeat case_decide; simplify_eq; (split; [discriminate|lia]).
Defined.

(** * The demo [main] run from process start *)

Lemma bind_returns {A B} (m : M A) (k : A → M B) (w w' : world) (a : A) :
  m w = (w', Returns a) → bind m k w = k a w'.
Proof. intros H. unfold bind. by rewrite H. Qed.

Lemma bind_raises {A B} (m : M A) (k : A → M B) (w w' : world) (e : exn) :
  m w = (w', Raises e) → bind m k w = (w', Raises e).
Proof. intros H. unfold bind. by rewrite H. Qed.

Section Demo.

Variable int_of_str : string → option Z.
Variable repr_names : list string → string.

(** [main] up to its call of [save_data]: from process start the stock is
    [main_stock], whatever the files are. *)
Lemma main_before_save (fs : gmap string content) (ro : gset string) :
  main int_of_str repr_names (boot fs ro)
  = (save_data "inventory.json" ;;
     load_data int_of_str "inventory.json" ;;
     print_data ;;
     ret [IgnoredAdd "qty must be non-negative"])
      (World main_stock fs ro main_records (main_printed repr_names)).
Proof.
  unfold main. cbv zeta.
  rewrite (bind_returns _ _ _
             (World (<["apple" := 10]> ∅) fs ro [(INFO, Added (PInt 10) "apple" 0 10)] [])
             [Added (PInt 10) "apple" 0 10]) by reflexivity.
  cbv beta.
  rewrite (bind_returns _ _ _
             (World (<["apple" := 10]> ∅) fs ro [(INFO, Added (PInt 10) "apple" 0 10)] [])
             ([Added (PInt 10) "apple" 0 10], [IgnoredAdd "qty must be non-negative"]))
    by reflexivity.
  cbv beta.
  rewrite (bind_returns _ _ _
             (World (<["123" := 10]> (<["apple" := 10]> ∅)) fs ro
                    [(INFO, Added (PInt 10) "apple" 0 10);
                     (INFO, Added (PInt 10) "123" 0 10)] [])
             ([Added (PInt 10) "apple" 0 10; Added (PInt 10) "123" 0 10], []))
    by reflexivity.
  cbv beta.
  rewrite (bind_returns _ _ _
             (World main_stock fs ro
                    [(INFO, Added (PInt 10) "apple" 0 10);
                     (INFO, Added (PInt 10) "123" 0 10);
                     (INFO, Decreased "apple" 3 7)] [])
             []) by reflexivity.
  cbv beta.
  rewrite (bind_returns _ _ _ (World main_stock fs ro main_records []) tt) by reflexivity.
  cbv beta.
  rewrite (bind_returns _ _ _ (World main_stock fs ro main_records ["Apple stock: 7"]) [])
    by reflexivity.
  cbv beta.
  rewrite (bind_returns _ _ _ (World main_stock fs ro main_records ["Apple stock: 7"]) [])
    by reflexivity.
  cbv beta.
  rewrite (bind_returns _ _ _
             (World main_stock fs ro main_records (main_printed repr_names)) tt)
    by reflexivity.
  reflexivity.
Qed.


(** X18.  When ["inventory.json"] cannot be written, [main] goes on to load
    whatever the file held before: it ends with the stock that
    [load_data] leaves from [{"apple": 7, "123": 10}], and it raises exactly
    when that load raises. *)
Theorem main_unwritable (fs : gmap string content) (ro : gset string) :
  "inventory.json" ∈ ro →
  let old := load_data int_of_str "inventory.json" (World main_stock fs ro [] []) in
  stock_data (main int_of_str repr_names (boot fs ro)).1 = stock_data old.1
  ∧ (main int_of_str repr_names (boot fs ro)).2
    = match old.2 with
      | Returns _ => Returns [IgnoredAdd "qty must be non-negative"]
      | Raises e => Raises e
      end.
Proof.
  intros Hro old. rewrite main_before_save.
  erewrite bind_returns; [|unfold save_data; by rewrite decide_True].
  match goal with |- context [bind (load_data _ _) _ ?w] =>
    pose proof (load_data_congr int_of_str "inventory.json" w
                  (World main_stock fs ro [] []) eq_refl eq_refl) as Hold;
    destruct (load_data int_of_str "inventory.json" w) as [w' r] eqn:Hload
  end.
  fold old in Hold. unfold outcome in Hold. simpl in Hold.
  injection Hold as Hstock Hres. rewrite <- Hstock, <- Hres.
  destruct r as [[]|e].
  - erewrite bind_returns; [|exact Hload].
    erewrite bind_returns; [|apply print_data_eq]. done.
  - erewrite bind_raises; [|exact Hload]. done.
Qed.

End Demo.


Lemma main_unwritable_witness :
  (main no_literal repr_plain
     (boot {["inventory.json" := Document (JObj infinite_members)]}
           {["inventory.json"]})).2
  = Raises OverflowError.
Proof.
  destruct (main_unwritable no_literal repr_plain
              {["inventory.json" := Document (JObj infinite_members)]}
              {["inventory.json"]}) as [_ H].
  - by apply elem_of_singleton.
  - rewrite H. reflexivity.
Defined.

(** * Files that cannot be read *)

Section Unreadable.

Variable int_of_str : string → option Z.

(** What [load_data] does not catch: the [OSError] of [open] other than
    [FileNotFoundError], and the [UnicodeDecodeError] of reading bytes that
    are not UTF-8.  Both reach the caller, and nothing is logged. *)
Lemma load_data_unreadable (file : string) (w : world) :
  (∀ msg, files w !! file = Some (Undecodable msg) →
     load_data int_of_str file w = (w, Raises (UnicodeDecodeError msg)))
  ∧ (∀ e, files w !! file = Some (Unopenable e) →
     load_data int_of_str file w = (w, Raises (OSError e))).
Proof. unfold load_data. split; by intros ? ->. Qed.

(** Every call keeps the file system closed: [save_data] writes only where
    [open] does not refuse, and nothing else touches the files. *)
Lemma step_paths_closed (o : op) (w : world) :
  paths_closed w → paths_closed (step int_of_str w o).
Proof.
  intros Hw.
  assert (readonly (step int_of_str w o) = readonly w) as Hro.
  { destruct o; simpl.
    - unfold add_item. destruct (nonempty_str item); [|done].
      destruct (as_int qty) as [q|]; [|done]. by destruct (decide (q < 0)).
    - unfold remove_item. destruct (nonempty_str item); [|done].
      destruct (as_int qty) as [q|]; [|done]. destruct (decide (q <= 0)); [done|].
      unfold_m. destruct (stock_data w !! _) as [c|]; [|done].
      by destruct (decide (q >= c)).
    - unfold get_qty. by destruct (nonempty_str item).
    - unfold load_data. destruct (files w !! file) as [[|j|msg|err]|]; try done.
      destruct (json_load j) as [| | | | | |items]; try done. unfold bind.
      assert (∀ items acc w,
                readonly (validate int_of_str items acc w).1 = readonly w) as Hval.
      { clear. induction items as [|[k v] items IH]; intros acc w; simpl; [done|].
        destruct (as_str k); [|unfold bind; simpl; by rewrite IH].
        destruct (py_int int_of_str v); simpl;
          [apply IH | unfold bind; simpl; by rewrite IH.. | done]. }
      specialize (Hval items ∅ w).
      by destruct (validate int_of_str items ∅ w) as [w' [m|e]].
    - unfold save_data. by case_decide.
    - unfold check_low_items. destruct (as_int threshold) as [t|]; [|done].
      by destruct (decide (t < 0)).
    - by rewrite print_data_eq. }
  intros file e. rewrite Hro.
  destruct o as [| | | |path| |]; try (rewrite step_files by done; apply Hw).
  simpl. unfold save_data. case_decide as Hpath; [apply Hw|]. simpl.
  rewrite lookup_insert. case_decide; [done|apply Hw].
Qed.

End Unreadable.

(** * Going back to a saved stock *)

Section Restore.

Variable int_of_str : string → option Z.



End Restore.

